(** * Spur chat agent backend: shallow embedding and verification

    Model of the backend request path of the chat widget:
    - [src/backend/src/services/conversationService.ts] (SQLite store),
    - [src/backend/src/services/cacheService.ts] (Redis cache and,
      concatenated in the same file, the LLM service [LLMService]),
    - [src/backend/src/routes/chat.ts] (the [POST /message] handler),
    - the error middleware [errorHandler] (src/unnamed/part_001).

    Strings are byte strings ([String.string]); JavaScript lengths count
    UTF-16 code units, which coincide with bytes on ASCII/Latin-1 text. *)

From Stdlib Require Import String Ascii List ZArith Lia Bool Sorted Permutation.
Import ListNotations.
Open Scope string_scope.
Open Scope Z_scope.

(* ------------------------------------------------------------------ *)
(** ** JavaScript string primitives *)

Module JS.

(** Characters removed by [String.prototype.trim] that fit in one code
    unit of the model: TAB, LF, VT, FF, CR, SPACE and NBSP (U+00A0). *)
Definition is_ws (c : ascii) : bool :=
  let n := nat_of_ascii c in
  ((9 <=? n)%nat && (n <=? 13)%nat) || (n =? 32)%nat || (n =? 160)%nat.

Fixpoint drop_ws (l : list ascii) : list ascii :=
  match l with
  | [] => []
  | c :: l' => if is_ws c then drop_ws l' else l
  end.

(** [s.trim()] *)
Definition trim (s : string) : string :=
  string_of_list_ascii
    (rev (drop_ws (rev (drop_ws (list_ascii_of_string s))))).

Definition lower_char (c : ascii) : ascii :=
  let n := nat_of_ascii c in
  if ((65 <=? n)%nat && (n <=? 90)%nat) then ascii_of_nat (n + 32) else c.

(** [s.toLowerCase()] on strings of one-byte characters, lowering
    [A]-[Z] only: the Unicode case mappings JavaScript applies to other
    letters (accented Latin-1 letters among them) are not modelled. *)
Fixpoint toLowerCase (s : string) : string :=
  match s with
  | EmptyString => EmptyString
  | String c s' => String (lower_char c) (toLowerCase s')
  end.

(** [s.startsWith(p)] *)
Definition startsWith (s p : string) : bool := String.prefix p s.

(** [s.includes(sub)] *)
Fixpoint includes (s sub : string) : bool :=
  String.prefix sub s ||
  match s with
  | EmptyString => false
  | String _ s' => includes s' sub
  end.

(** Truthiness of a string ([""] is falsy). *)
Definition truthy (s : string) : bool :=
  match s with EmptyString => false | _ => true end.

(** [arr.slice(-n)] for [n > 0]: start index [max(len - n, 0)]. *)
Definition slice_neg {A} (n : nat) (l : list A) : list A :=
  skipn (length l - n) l.

End JS.

(* ------------------------------------------------------------------ *)
(** ** Errors, world and the effect monad *)

(** A thrown JavaScript value, as inspected by [LLMService.handleError]:
    [error.status], [error.response.status], [error.code], [error.message]. *)
Record ErrorVal := mkErr {
  err_status : option Z;
  err_response_status : option Z;
  err_code : option string;
  err_message : option string
}.

(** [new Error(msg)] *)
Definition new_Error (msg : string) : ErrorVal := mkErr None None None (Some msg).

Inductive Exn :=
| ZodError                   (* thrown by [messageSchema.parse] *)
| Thrown (e : ErrorVal).     (* any other thrown value *)

Inductive Sender := User | Ai.

Definition sender_str (s : Sender) : string :=
  match s with User => "user" | Ai => "ai" end.

(** Row of [messages]. *)
Record Message := mkMessage {
  msg_id : string;
  msg_conversation_id : string;
  msg_sender : Sender;
  msg_text : string;
  msg_timestamp : Z
}.

(** Row of [conversations]. *)
Record Conversation := mkConversation {
  conv_id : string;
  created_at : Z;
  updated_at : Z
}.

(** The SQLite database: both tables, rows in insertion (rowid) order. *)
Record DB := mkDB {
  conversations : list Conversation;
  messages : list Message
}.

Definition empty_db : DB := mkDB [] [].

(** Chat-completions request ([openai.chat.completions.create], used for
    OpenAI and, with another base URL, for Groq). *)
Record ChatParam := mkParam { role : string; content : string }.

Record ChatRequest := mkChatRequest {
  req_model : string;
  req_messages : list ChatParam;
  req_max_tokens : Z;
  req_temperature_tenths : Z   (* temperature 0.7 *)
}.

(** Gemini [model.generateContent(prompt)] with its generation config. *)
Record GeminiRequest := mkGeminiRequest {
  gem_model : string;
  gem_max_output_tokens : Z;
  gem_temperature_tenths : Z;
  gem_prompt : string
}.

(** Outcome of one SDK request ([chat.completions.create] or
    [generateContent]) as the awaiting code sees it: the response, or
    the error the SDK finally throws. Retries the SDK performs on its own
    (the openai client's [maxRetries], 2 by default) happen inside one
    request and are not observed separately. *)
Inductive Outcome (A : Type) := BOk (a : A) | BErr (e : ErrorVal).
Arguments BOk {A} a.
Arguments BErr {A} e.

(** One SDK request method invocation, logged with the client's base
    URL and the request body; not an HTTP attempt (see [Outcome]). *)
Inductive ProviderCall :=
| CallChat (base_url : string) (r : ChatRequest)
| CallGemini (r : GeminiRequest).

(** Immutable runtime: [process.env], the wall clock read by [Date.now()]
    (k-th reading, in milliseconds), the [uuidv4] generator (k-th id),
    [sha256] hex digest, and the hosted backends' answers. *)
Record Env := mkEnv {
  env_vars : list (string * string);
  clock_ms : nat -> Z;
  uuid_gen : nat -> string;
  sha256_hex : string -> string;
  chat_backend : string -> ChatRequest -> Outcome (option string);
  gemini_backend : GeminiRequest -> Outcome string
}.

(** Mutable state: the database, the Redis store ([None] when
    [getRedisClient()] yields [null], i.e. caching disabled), the number
    of clock and uuid readings so far, every database state committed by
    an autocommit statement (what a reader on another connection can
    observe), and the provider calls made. *)
Record State := mkState {
  st_db : DB;
  st_redis : option (list (string * string));
  st_ticks : nat;
  st_uuids : nat;
  st_commits : list DB;
  st_calls : list ProviderCall
}.

Inductive Result (A : Type) := Ok (a : A) | Err (e : Exn).
Arguments Ok {A} a.
Arguments Err {A} e.

Definition M (A : Type) := Env -> State -> Result A * State.

Definition ret {A} (a : A) : M A := fun _ s => (Ok a, s).
Definition bind {A B} (m : M A) (k : A -> M B) : M B :=
  fun E s => match m E s with
             | (Ok a, s') => k a E s'
             | (Err e, s') => (Err e, s')
             end.
Definition throw {A} (e : Exn) : M A := fun _ s => (Err e, s).
Definition try_catch {A} (m : M A) (h : Exn -> M A) : M A :=
  fun E s => match m E s with
             | (Err e, s') => h e E s'
             | r => r
             end.

Notation "x <- m ;; k" := (bind m (fun x => k))
  (at level 61, m at next level, right associativity).
Notation "m ;;; k" := (bind m (fun _ => k))
  (at level 61, right associativity).

Definition get_env : M Env := fun E s => (Ok E, s).
Definition get_state : M State := fun _ s => (Ok s, s).
Definition put_state (s : State) : M unit := fun _ _ => (Ok tt, s).

Definition set_db (s : State) (d : DB) : State :=
  mkState d (st_redis s) (st_ticks s) (st_uuids s) (st_commits s) (st_calls s).
Definition set_redis (s : State) (r : option (list (string * string))) : State :=
  mkState (st_db s) r (st_ticks s) (st_uuids s) (st_commits s) (st_calls s).

(** [Date.now()] *)
Definition Date_now : M Z := fun E s =>
  (Ok (clock_ms E (st_ticks s)),
   mkState (st_db s) (st_redis s) (S (st_ticks s)) (st_uuids s)
           (st_commits s) (st_calls s)).

(** [uuidv4()] *)
Definition uuidv4 : M string := fun E s =>
  (Ok (uuid_gen E (st_uuids s)),
   mkState (st_db s) (st_redis s) (st_ticks s) (S (st_uuids s))
           (st_commits s) (st_calls s)).

(** Running one autocommit SQL statement: either it fails with an
    SQLite error and changes nothing, or its effect is committed. *)
Definition exec_sql (stmt : DB -> option DB) (fail : ErrorVal) : M unit :=
  fun _ s => match stmt (st_db s) with
             | None => (Err (Thrown fail), s)
             | Some d =>
                 (Ok tt, mkState d (st_redis s) (st_ticks s) (st_uuids s)
                                 (st_commits s ++ [d]) (st_calls s))
             end.

Definition read_db : M DB := fun _ s => (Ok (st_db s), s).

Definition log_call (c : ProviderCall) : M unit := fun _ s =>
  (Ok tt, mkState (st_db s) (st_redis s) (st_ticks s) (st_uuids s)
                  (st_commits s) (st_calls s ++ [c])).

(** [process.env[name]] *)
Definition process_env (name : string) : M (option string) :=
  fun E s =>
    (Ok (option_map snd (find (fun kv => String.eqb (fst kv) name) (env_vars E))), s).

(* ------------------------------------------------------------------ *)
(** ** [ConversationService] (conversationService.ts) *)

Module Store.

Definition sqlite_error (code msg : string) : ErrorVal :=
  mkErr None None (Some code) (Some msg).

Definition find_conversation (d : DB) (id : string) : option Conversation :=
  find (fun c => String.eqb (conv_id c) id) (conversations d).

(** [INSERT INTO conversations (id, created_at, updated_at) VALUES (?, ?, ?)]:
    the primary key rejects a duplicate id. *)
Definition insert_conversation (c : Conversation) (d : DB) : option DB :=
  match find_conversation d (conv_id c) with
  | Some _ => None
  | None => Some (mkDB (conversations d ++ [c]) (messages d))
  end.

(** [INSERT INTO messages (...) VALUES (...)]: primary key on [id] and
    (with [foreign_keys = ON]) the foreign key on [conversation_id]. *)
Definition insert_message (m : Message) (d : DB) : option DB :=
  if existsb (fun m' => String.eqb (msg_id m') (msg_id m)) (messages d) then None
  else match find_conversation d (msg_conversation_id m) with
       | None => None
       | Some _ => Some (mkDB (conversations d) (messages d ++ [m]))
       end.

Definition set_updated_at (ts : Z) (id : string) (d : DB) : DB :=
  mkDB (map (fun c => if String.eqb (conv_id c) id
                      then mkConversation (conv_id c) (created_at c) ts
                      else c) (conversations d))
       (messages d).

(** [UPDATE conversations SET updated_at = ? WHERE id = ?] *)
Definition update_updated_at (ts : Z) (id : string) (d : DB) : option DB :=
  Some (set_updated_at ts id d).

(** [Math.floor(Date.now() / 1000)] *)
Definition now_seconds : M Z := ms <- Date_now ;; ret (Z.div ms 1000).

(** [createConversation()] *)
Definition createConversation : M string :=
  id <- uuidv4 ;;
  now <- now_seconds ;;
  exec_sql (insert_conversation (mkConversation id now now))
           (sqlite_error "SQLITE_CONSTRAINT_PRIMARYKEY"
                         "UNIQUE constraint failed: conversations.id") ;;;
  ret id.

(** [getConversation(conversationId)] *)
Definition getConversation (conversationId : string) : M (option Conversation) :=
  d <- read_db ;; ret (find_conversation d conversationId).

(** [addMessage(conversationId, sender, text)]: two separate autocommit
    statements, no enclosing transaction. *)
Definition addMessage (conversationId : string) (sender : Sender) (text : string)
  : M Message :=
  id <- uuidv4 ;;
  timestamp <- now_seconds ;;
  conversation <- getConversation conversationId ;;
  match conversation with
  | None => throw (Thrown (new_Error "Conversation not found"))
  | Some _ =>
      let m := mkMessage id conversationId sender text timestamp in
      exec_sql (insert_message m)
               (sqlite_error "SQLITE_CONSTRAINT_PRIMARYKEY"
                             "UNIQUE constraint failed: messages.id") ;;;
      exec_sql (update_updated_at timestamp conversationId)
               (sqlite_error "SQLITE_ERROR" "UPDATE failed") ;;;
      ret m
  end.

(** [ORDER BY timestamp ASC]: rows with equal timestamps are kept in
    insertion order. *)
Fixpoint insert_by_ts (m : Message) (l : list Message) : list Message :=
  match l with
  | [] => [m]
  | m' :: l' => if msg_timestamp m <=? msg_timestamp m'
                then m :: l else m' :: insert_by_ts m l'
  end.

Fixpoint sort_by_ts (l : list Message) : list Message :=
  match l with
  | [] => []
  | m :: l' => insert_by_ts m (sort_by_ts l')
  end.

Definition messages_of (d : DB) (conversationId : string) : list Message :=
  filter (fun m => String.eqb (msg_conversation_id m) conversationId) (messages d).

Definition select_messages (d : DB) (conversationId : string) : list Message :=
  sort_by_ts (messages_of d conversationId).

(** [getMessages(conversationId)] *)
Definition getMessages (conversationId : string) : M (list Message) :=
  d <- read_db ;; ret (select_messages d conversationId).

End Store.

(* ------------------------------------------------------------------ *)
(** ** [CacheService] (cacheService.ts, first part) *)

Module Cache.

(** [private readonly TTL = 3600]: [set] stores with [setEx(key, TTL, v)]
    and Redis itself drops the entry [TTL] seconds later, on its own
    clock. The model keeps no expiry: an entry stays until overwritten,
    so it over-approximates what a later [get] finds; no property below
    relies on an entry written by [set] being read back. *)
Definition TTL : Z := 3600.

(** [getCacheKey(userMessage)] *)
Definition getCacheKey (E : Env) (userMessage : string) : string :=
  let normalized := JS.trim (JS.toLowerCase userMessage) in
  "chat:" ++ sha256_hex E normalized.

Definition redis_lookup (kv : list (string * string)) (k : string) : option string :=
  option_map snd (find (fun p => String.eqb (fst p) k) kv).

Definition redis_setEx (kv : list (string * string)) (k v : string)
  : list (string * string) :=
  (k, v) :: filter (fun p => negb (String.eqb (fst p) k)) kv.

(** [get(userMessage)]: [null] when no client; never throws. *)
Definition get (userMessage : string) : M (option string) :=
  fun E s => match st_redis s with
             | None => (Ok None, s)
             | Some kv => (Ok (redis_lookup kv (getCacheKey E userMessage)), s)
             end.

(** [set(userMessage, reply)]: no effect when no client; never throws. *)
Definition set (userMessage reply : string) : M unit :=
  fun E s => match st_redis s with
             | None => (Ok tt, s)
             | Some kv =>
                 (Ok tt, set_redis s (Some (redis_setEx kv (getCacheKey E userMessage) reply)))
             end.

End Cache.

(* ------------------------------------------------------------------ *)
(** ** [LLMService] (cacheService.ts, second part) *)

Module LLM.

Definition nl : string := String (ascii_of_nat 10) EmptyString.
Definition dq : string := String (ascii_of_nat 34) EmptyString.

(** [STORE_KNOWLEDGE] (a template literal starting and ending with a newline). *)
Definition STORE_KNOWLEDGE : string :=
  nl ++
  "You are a helpful and friendly customer support agent for " ++ dq ++ "SpurStore" ++ dq ++
  ", a small e-commerce store specializing in tech accessories and gadgets." ++ nl ++ nl ++
  "Store Information:" ++ nl ++
  "- Shipping Policy: We offer free shipping on orders over $50. Standard shipping (5-7 business days) is $5.99. Express shipping (2-3 business days) is $12.99. We ship to USA, Canada, UK, and Australia." ++ nl ++
  "- Return/Refund Policy: Items can be returned within 30 days of purchase in original condition. Full refunds are processed within 5-7 business days after we receive the item. Items must be unopened and in original packaging." ++ nl ++
  "- Support Hours: Our support team is available Monday-Friday, 9 AM - 6 PM EST. We respond to emails within 24 hours." ++ nl ++
  "- Payment Methods: We accept all major credit cards, PayPal, Apple Pay, and Google Pay." ++ nl ++
  "- Product Warranty: All products come with a 1-year manufacturer warranty. Extended warranties available at checkout." ++ nl ++ nl ++
  "Guidelines:" ++ nl ++
  "- Be concise and helpful (2-3 sentences max per response)" ++ nl ++
  "- Use a friendly, professional tone" ++ nl ++
  "- If asked about something not in your knowledge base, politely say you'll need to check with the team and ask them to email support@spurstore.com" ++ nl ++
  "- Always end with a helpful follow-up question or offer to help with something else" ++ nl.

Definition maxTokens : Z := 200.
Definition maxHistoryMessages : nat := 10.

Inductive Provider := OpenAI | Groq | Gemini.

(** [getProvider()] *)
Definition getProvider : M Provider :=
  v <- process_env "LLM_PROVIDER" ;;
  let raw := match v with Some x => if JS.truthy x then x else "openai"
                        | None => "openai" end in
  let llmProvider := JS.trim (JS.toLowerCase raw) in
  if String.eqb llmProvider "groq" then ret Groq
  else if String.eqb llmProvider "gemini" then ret Gemini
  else ret OpenAI.

(** [status === n] *)
Definition status_is (status : option Z) (n : Z) : bool :=
  match status with Some s => s =? n | None => false end.

(** [const status = error?.status || error?.response?.status] *)
Definition status_of (error : ErrorVal) : option Z :=
  match err_status error with
  | Some s => if s =? 0 then err_response_status error else Some s
  | None => err_response_status error
  end.

(** [error.code === 'ECONNABORTED' || error.message?.includes('timeout')] *)
Definition timed_out (error : ErrorVal) : bool :=
  match err_code error with
  | Some c => String.eqb c "ECONNABORTED" | None => false end
  || match err_message error with
     | Some m => JS.includes m "timeout" | None => false end.

(** [handleError(error, provider)]: the message of the [Error] it throws. *)
Definition handleError_message (error : ErrorVal) (provider : string) : string :=
  let status := status_of error in
  if status_is status 401 then
    "Invalid " ++ provider ++ " API key. Please check your API key."
  else if status_is status 429 then
    provider ++ " rate limit exceeded. Please wait a moment and try again."
  else if status_is status 503 then
    provider ++ " service temporarily unavailable. Please try again in a moment."
  else if timed_out error then
    "Request to " ++ provider ++ " timed out. Please try again."
  else
    "Failed to generate reply with " ++ provider ++ ": " ++
    match err_message error with
    | Some m => if JS.truthy m then m else "Unknown error"
    | None => "Unknown error"
    end.

(** [handleError(error, provider): never] *)
Definition handleError {A} (e : Exn) (provider : string) : M A :=
  match e with
  | Thrown v => throw (Thrown (new_Error (handleError_message v provider)))
  | ZodError => throw ZodError
  end.

(** [client.chat.completions.create(r)] on a client with base URL
    [base_url]: one SDK invocation; its final outcome is
    [choices[0]?.message?.content]. *)
Definition call_chat (base_url : string) (r : ChatRequest) : M (option string) :=
  log_call (CallChat base_url r) ;;;
  E <- get_env ;;
  match chat_backend E base_url r with
  | BOk a => ret a
  | BErr e => throw (Thrown e)
  end.

Definition call_gemini (r : GeminiRequest) : M string :=
  log_call (CallGemini r) ;;;
  E <- get_env ;;
  match gemini_backend E r with
  | BOk a => ret a
  | BErr e => throw (Thrown e)
  end.

(** [recentHistory.map(msg => ({ role: ..., content: msg.text }))] *)
Definition to_param (msg : Message) : ChatParam :=
  mkParam (match msg_sender msg with User => "user" | Ai => "assistant" end)
          (msg_text msg).

(** The [messages] array of the OpenAI and Groq branches. *)
Definition chat_messages (userMessage : string) (conversationHistory : list Message)
  : list ChatParam :=
  let recentHistory := JS.slice_neg maxHistoryMessages conversationHistory in
  mkParam "system" STORE_KNOWLEDGE
  :: map to_param recentHistory ++ [mkParam "user" userMessage].

(** [completion.choices[0]?.message?.content?.trim()], then [if (!reply) throw]. *)
Definition check_reply (content : option string) (provider : string) : M string :=
  match option_map JS.trim content with
  | Some reply => if JS.truthy reply then ret reply
                  else throw (Thrown (new_Error ("Empty response from " ++ provider)))
  | None => throw (Thrown (new_Error ("Empty response from " ++ provider)))
  end.

(** [generateWithGroq(userMessage, conversationHistory)] *)
Definition generateWithGroq (userMessage : string) (conversationHistory : list Message)
  : M string :=
  k <- process_env "GROQ_API_KEY" ;;
  let invalid := match k with
                 | None => true
                 | Some key => negb (JS.truthy key)
                               || String.eqb (JS.trim key) ""
                               || String.eqb key "your_groq_api_key_here"
                               || negb (JS.startsWith key "gsk_")
                 end in
  if invalid then
    throw (Thrown (new_Error "Groq API key not configured. Please set a valid GROQ_API_KEY in backend/.env file. Get free key at https://console.groq.com/keys"))
  else
    try_catch
      (content <- call_chat "https://api.groq.com/openai/v1"
                   (mkChatRequest "llama-3.1-8b-instant"
                      (chat_messages userMessage conversationHistory) maxTokens 7) ;;
       check_reply content "Groq")
      (fun e => handleError e "Groq").

(** [conversationContext] of the Gemini branch. *)
Definition gemini_prompt (userMessage : string) (conversationHistory : list Message)
  : string :=
  let recentHistory := JS.slice_neg maxHistoryMessages conversationHistory in
  let header := STORE_KNOWLEDGE ++ nl ++ nl ++ "Conversation History:" ++ nl in
  let body := fold_left
                (fun acc msg =>
                   acc ++ (match msg_sender msg with User => "Customer" | Ai => "Agent" end)
                       ++ ": " ++ msg_text msg ++ nl)
                recentHistory header in
  body ++ nl ++ "Customer: " ++ userMessage ++ nl ++ "Agent:".

(** [generateWithGemini(userMessage, conversationHistory)] *)
Definition generateWithGemini (userMessage : string) (conversationHistory : list Message)
  : M string :=
  k <- process_env "GEMINI_API_KEY" ;;
  let invalid := match k with
                 | None => true
                 | Some key => negb (JS.truthy key)
                               || String.eqb key "your_gemini_api_key_here"
                 end in
  if invalid then
    throw (Thrown (new_Error "Gemini API key not configured. Please set GEMINI_API_KEY in backend/.env file. Get free key at https://aistudio.google.com/app/apikey"))
  else
    try_catch
      (text <- call_gemini (mkGeminiRequest "gemini-pro" maxTokens 7
                             (gemini_prompt userMessage conversationHistory)) ;;
       check_reply (Some text) "Gemini")
      (fun e => handleError e "Gemini").

(** The base URL of [new OpenAI({ apiKey })]: the client's default
    [baseURL = readEnv('OPENAI_BASE_URL')] (the variable trimmed), then
    [baseURL || 'https://api.openai.com/v1']. *)
Definition openai_baseURL (OPENAI_BASE_URL : option string) : string :=
  match option_map JS.trim OPENAI_BASE_URL with
  | Some b => if JS.truthy b then b else "https://api.openai.com/v1"
  | None => "https://api.openai.com/v1"
  end.

(** [generateWithOpenAI(userMessage, conversationHistory)] *)
Definition generateWithOpenAI (userMessage : string) (conversationHistory : list Message)
  : M string :=
  k <- process_env "OPENAI_API_KEY" ;;
  let isValidApiKey := match k with
                       | None => false
                       | Some key => JS.truthy key
                                     && negb (String.eqb (JS.trim key) "")
                                     && negb (String.eqb key "your_openai_api_key_here")
                                     && JS.startsWith key "sk-"
                       end in
  if negb isValidApiKey then
    throw (Thrown (new_Error "OpenAI API key not configured. Please set a valid OPENAI_API_KEY in backend/.env file. Get your key at https://platform.openai.com/api-keys"))
  else
    try_catch
      (base <- process_env "OPENAI_BASE_URL" ;;
       content <- call_chat (openai_baseURL base)
                   (mkChatRequest "gpt-3.5-turbo"
                      (chat_messages userMessage conversationHistory) maxTokens 7) ;;
       check_reply content "OpenAI")
      (fun e => handleError e "OpenAI").

Definition generateWith (p : Provider) : string -> list Message -> M string :=
  match p with
  | Groq => generateWithGroq
  | Gemini => generateWithGemini
  | OpenAI => generateWithOpenAI
  end.

(** [generateReply(userMessage, conversationHistory)] *)
Definition generateReply (userMessage : string) (conversationHistory : list Message)
  : M string :=
  let generate :=
    provider <- getProvider ;;
    reply <- generateWith provider userMessage conversationHistory ;;
    (if (length conversationHistory =? 0)%nat
     then Cache.set userMessage reply else ret tt) ;;;
    ret reply in
  if (length conversationHistory =? 0)%nat then
    cached <- Cache.get userMessage ;;
    match cached with
    | Some c => if JS.truthy c then ret c else generate
    | None => generate
    end
  else generate.

End LLM.

(* ------------------------------------------------------------------ *)
(** ** [chatRouter.post("/message")] (routes/chat.ts) *)

Module Chat.

(** Request body: [message] and [sessionId] when present as strings. *)
Record Body := mkBody {
  body_message : option string;
  body_sessionId : option string
}.

Inductive Response :=
| R200 (reply sessionId : string)   (* res.json({ reply, sessionId }) *)
| R400                              (* res.status(400): "Invalid input" *)
| R500 (error : string).            (* errorHandler: res.status(500) *)

Definition is_hex (c : ascii) : bool :=
  let n := nat_of_ascii c in
  ((48 <=? n)%nat && (n <=? 57)%nat) || ((65 <=? n)%nat && (n <=? 70)%nat)
  || ((97 <=? n)%nat && (n <=? 102)%nat).

(** zod's [.uuid()]: 8-4-4-4-12 hexadecimal digits separated by dashes. *)
Definition is_uuid (s : string) : bool :=
  let l := list_ascii_of_string s in
  (length l =? 36)%nat &&
  forallb (fun '(i, c) =>
             if existsb (Nat.eqb i) [8; 13; 18; 23]%nat
             then Ascii.eqb c "-"%char else is_hex c)
          (combine (seq 0 (length l)) l).

(** [messageSchema.parse(req.body)]:
    [message: z.string().min(1).max(5000)], [sessionId: z.string().uuid().optional()]. *)
Definition messageSchema_parse (b : Body) : M (string * option string) :=
  match body_message b with
  | None => throw ZodError
  | Some message =>
      if negb ((1 <=? String.length message)%nat && (String.length message <=? 5000)%nat)
      then throw ZodError
      else match body_sessionId b with
           | Some sid => if is_uuid sid then ret (message, Some sid) else throw ZodError
           | None => ret (message, None)
           end
  end.

(** [errorHandler]: [err.message || 'An error occurred. Please try again later.'] *)
Definition errorHandler_message (e : ErrorVal) : string :=
  match err_message e with
  | Some m => if JS.truthy m then m else "An error occurred. Please try again later."
  | None => "An error occurred. Please try again later."
  end.

(** The conversation resolution of the handler. *)
Definition resolve_conversation (sessionId : option string) : M string :=
  match sessionId with
  | None => Store.createConversation
  | Some conversationId =>
      conversation <- Store.getConversation conversationId ;;
      match conversation with
      | None => Store.createConversation
      | Some _ => ret conversationId
      end
  end.

(** [chatRouter.post("/message", ...)] *)
Definition post_message (b : Body) : M Response :=
  try_catch
    (parsed <- messageSchema_parse b ;;
     let '(message, sessionId) := parsed in
     conversationId <- resolve_conversation sessionId ;;
     Store.addMessage conversationId User message ;;;
     history <- Store.getMessages conversationId ;;
     reply <- LLM.generateReply message history ;;
     Store.addMessage conversationId Ai reply ;;;
     ret (R200 reply conversationId))
    (fun e => match e with
              | ZodError => ret R400
              | Thrown v => ret (R500 (errorHandler_message v))
              end).

(** A sequence of requests handled one after the other. *)
Fixpoint post_all (bs : list Body) : M (list Response) :=
  match bs with
  | [] => ret []
  | b :: bs' => r <- post_message b ;; rs <- post_all bs' ;; ret (r :: rs)
  end.

End Chat.

(* ------------------------------------------------------------------ *)
(** ** [chatRouter.get("/history/:sessionId")] (routes/chat.ts) *)

Module History.

Inductive Response :=
| H200 (messages : list Message)   (* res.json({ messages }) *)
| H404                             (* res.status(404): "Conversation not found" *)
| H500 (error : option string).    (* res.status(500).json({ error: error.message }) *)

(** [chatRouter.get("/history/:sessionId", ...)] *)
Definition get_history (sessionId : string) : M Response :=
  try_catch
    (conversation <- Store.getConversation sessionId ;;
     match conversation with
     | None => ret H404
     | Some _ => messages <- Store.getMessages sessionId ;; ret (H200 messages)
     end)
    (fun e => match e with
              | Thrown v => ret (H500 (err_message v))
              | ZodError => ret (H500 None)
              end).

End History.

(* ------------------------------------------------------------------ *)
(** ** [getRedisClient()] (cacheService.ts) *)

Module Redis.

(** Value of a digit in radix up to 36. *)
Definition digit_val (c : ascii) : option Z :=
  let n := nat_of_ascii c in
  if ((48 <=? n)%nat && (n <=? 57)%nat) then Some (Z.of_nat n - 48)
  else if ((97 <=? n)%nat && (n <=? 122)%nat) then Some (Z.of_nat n - 87)
  else if ((65 <=? n)%nat && (n <=? 90)%nat) then Some (Z.of_nat n - 55)
  else None.

(** The value of the longest prefix of radix-[radix] digits; [None]
    when there is no digit. *)
Fixpoint digits_prefix (radix : Z) (l : list ascii) (acc : option Z) : option Z :=
  match l with
  | [] => acc
  | c :: l' =>
      match digit_val c with
      | Some d =>
          if d <? radix
          then digits_prefix radix l' (Some (match acc with
                                             | Some a => a * radix + d
                                             | None => d
                                             end))
          else acc
      | None => acc
      end
  end.

(** [parseInt(s)] without radix; [None] is [NaN]. Leading whitespace,
    then an optional sign, then an optional [0x]/[0X] prefix (radix 16,
    otherwise 10), then the longest run of digits. The value is kept
    exact (a double rounds large values, never to 0). *)
Definition parseInt (s : string) : option Z :=
  let l := JS.drop_ws (list_ascii_of_string s) in
  let '(sign, l1) := match l with
                     | "-"%char :: r => (-1, r)
                     | "+"%char :: r => (1, r)
                     | _ => (1, l)
                     end in
  let '(radix, l2) := match l1 with
                      | "0"%char :: c :: r =>
                          if Ascii.eqb c "x" || Ascii.eqb c "X" then (16, r) else (10, l1)
                      | _ => (10, l1)
                      end in
  option_map (Z.mul sign) (digits_prefix radix l2 None).

(** Truthiness of a [number | undefined]: [undefined], [NaN] and [0] are falsy. *)
Definition num_truthy (v : option (option Z)) : bool :=
  match v with
  | Some (Some n) => negb (n =? 0)
  | _ => false
  end.

Definition opt_truthy (v : option string) : bool :=
  match v with Some x => JS.truthy x | None => false end.

(** Options passed to [createClient]. *)
Inductive ClientConfig :=
| ByUrl (url : string)
| BySocket (username : string) (password : option string) (host : string) (port : Z).

(** A connected client: its options and the connection attempt that made it. *)
Record Client := mkClient { client_config : ClientConfig; client_attempt : nat }.

(** [process.env] and the outcome of the k-th [client.connect()]
    ([createClient] throwing counts as a failed attempt). Each attempt is
    assumed to settle, resolving or rejecting; a [connect()] that never
    settles (the client retrying forever) is not modelled. *)
Record World := mkWorld {
  w_vars : list (string * string);
  w_connect : nat -> ClientConfig -> bool
}.

(** The module variable [redisClient] and the connection attempts made. *)
Record RState := mkRState {
  redisClient : option Client;
  attempts : list ClientConfig
}.

Definition env_get (W : World) (name : string) : option string :=
  option_map snd (find (fun kv => String.eqb (fst kv) name) (w_vars W)).

(** [getRedisClient()] *)
Definition getRedisClient (W : World) (s : RState) : option Client * RState :=
  match redisClient s with
  | Some c => (Some c, s)
  | None =>
      let REDIS_URL := env_get W "REDIS_URL" in
      let REDIS_USERNAME := env_get W "REDIS_USERNAME" in
      let REDIS_PASSWORD := env_get W "REDIS_PASSWORD" in
      let REDIS_HOST := env_get W "REDIS_HOST" in
      let REDIS_PORT := match env_get W "REDIS_PORT" with
                        | Some p => if JS.truthy p then Some (parseInt p) else None
                        | None => None
                        end in
      if negb (opt_truthy REDIS_URL) && negb (opt_truthy REDIS_HOST) then (None, s)
      else
        let config :=
          match REDIS_URL with
          | Some url => if JS.truthy url then Some (ByUrl url) else None
          | None => None
          end in
        let config :=
          match config with
          | Some c => Some c
          | None =>
              match REDIS_HOST, REDIS_PORT with
              | Some host, Some (Some port) =>
                  if JS.truthy host && num_truthy REDIS_PORT
                  then Some (BySocket
                               (match REDIS_USERNAME with
                                | Some u => if JS.truthy u then u else "default"
                                | None => "default"
                                end)
                               REDIS_PASSWORD host port)
                  else None
              | _, _ => None
              end
          end in
        match config with
        | None => (None, s)
        | Some cfg =>
            let k := List.length (attempts s) in
            let tried := (attempts s ++ [cfg])%list in
            if w_connect W k cfg
            then let c := mkClient cfg k in (Some c, mkRState (Some c) tried)
            else (None, mkRState None tried)
        end
  end.

(** Successive calls. *)
Fixpoint getRedisClient_n (n : nat) (W : World) (s : RState) : list (option Client) * RState :=
  match n with
  | O => ([], s)
  | S n' => let '(r, s1) := getRedisClient W s in
            let '(rs, s2) := getRedisClient_n n' W s1 in (r :: rs, s2)
  end.

End Redis.

(* ------------------------------------------------------------------ *)
(** ** [ChatWidget] request side (frontend/src/components/ChatWidget.tsx) *)

Module Widget.

(** [s.endsWith(p)] *)
Fixpoint endsWith (s p : string) : bool :=
  String.eqb s p ||
  match s with
  | EmptyString => false
  | String _ s' => endsWith s' p
  end.

(** [import.meta.env.VITE_API_URL || "/api"], then the [baseUrl] expression. *)
Definition baseUrl (VITE_API_URL : option string) : string :=
  let apiUrl := match VITE_API_URL with
                | Some u => if JS.truthy u then u else "/api"
                | None => "/api"
                end in
  if endsWith apiUrl "/api" then apiUrl
  else if endsWith apiUrl "/" then apiUrl ++ "api"
  else apiUrl ++ "/api".

(** What [sendMessage()] does before its [fetch]. *)
Inductive SendStep :=
| NoSend                        (* [if (!trimmedInput || isLoading) return;] *)
| TooLong (error : string)      (* [setError(...); return;] *)
| Send (body : Chat.Body).      (* POST [baseUrl]/chat/message with this body *)

Definition sendMessage_step (input : string) (isLoading : bool) (sessionId : option string)
  : SendStep :=
  let trimmedInput := JS.trim input in
  if negb (JS.truthy trimmedInput) || isLoading then NoSend
  else if (5000 <? String.length trimmedInput)%nat
  then TooLong "Message is too long. Please keep it under 5000 characters."
  else Send (Chat.mkBody (Some trimmedInput)
                         (match sessionId with
                          | Some sid => if JS.truthy sid then Some sid else None
                          | None => None
                          end)).

End Widget.

(* ------------------------------------------------------------------ *)
(** ** Vocabulary of the properties *)

Module Spec.

Definition provider_name (p : LLM.Provider) : string :=
  match p with LLM.OpenAI => "OpenAI" | LLM.Groq => "Groq" | LLM.Gemini => "Gemini" end.

(** The [n] most recent elements of a history, oldest first. *)
Definition most_recent {A} (n : nat) (l : list A) : list A := rev (firstn n (rev l)).

(** Neither the first nor the last character is trimmable whitespace. *)
Definition edges_not_ws (s : string) : bool :=
  match list_ascii_of_string s with
  | [] => true
  | c :: _ as l => negb (JS.is_ws c) && negb (JS.is_ws (last l c))
  end.

(** Concatenation of a list of strings. *)
Definition cat (l : list string) : string := fold_right String.append "" l.

(** A store operation issued by some caller; a failing operation
    leaves its error to that caller and the next operation runs. *)
Inductive StoreOp :=
| OpCreate
| OpAppend (conversationId : string) (sender : Sender) (text : string).

Definition run_op (op : StoreOp) : M unit :=
  try_catch
    (match op with
     | OpCreate => Store.createConversation ;;; ret tt
     | OpAppend c sd t => Store.addMessage c sd t ;;; ret tt
     end)
    (fun _ => ret tt).

Fixpoint run_ops (ops : list StoreOp) : M unit :=
  match ops with
  | [] => ret tt
  | op :: ops' => run_op op ;;; run_ops ops'
  end.

(** The wall clock never goes back. *)
Definition clock_monotone (E : Env) : Prop :=
  forall i j : nat, (i <= j)%nat -> clock_ms E i <= clock_ms E j.

(** [updated_at] dominates [created_at] and every message of the conversation. *)
Definition timestamps_ok (d : DB) : Prop :=
  forall c, In c (conversations d) ->
    created_at c <= updated_at c /\
    (forall m, In m (messages d) -> msg_conversation_id m = conv_id c ->
               msg_timestamp m <= updated_at c).

End Spec.

(* ------------------------------------------------------------------ *)
(** ** Concrete runtimes used to exercise the model *)

Module Demo.

Definition digit (n : nat) : ascii := ascii_of_nat (48 + n mod 10).

(** [uuidv4()] results: [00000000-0000-4000-8000-0000000000kk]. *)
Definition demo_uuid (k : nat) : string :=
  "00000000-0000-4000-8000-0000000000" ++
  String (digit (k / 10)) (String (digit k) EmptyString).

(** An OpenAI configuration whose backend always answers [answer]. *)
Definition env (clock : nat -> Z) (answer : string) : Env :=
  mkEnv [("LLM_PROVIDER", "openai"); ("OPENAI_API_KEY", "sk-demo")]
        clock demo_uuid (fun s => s)
        (fun _ _ => BOk (Some answer)) (fun _ => BOk answer).

(** One second between successive clock readings. *)
Definition ticking (k : nat) : Z := 1700000000000 + Z.of_nat k * 1000.

(** All readings fall within the same second. *)
Definition frozen (k : nat) : Z := 1700000000000 + Z.of_nat k.

(** Empty database, Redis connected and empty. *)
Definition state0 : State := mkState empty_db (Some []) 0 0 [] [].

(** A stored conversation last updated at 1700000000, with the clock
    five readings later. *)
Definition conv_state : State :=
  mkState (mkDB [mkConversation (demo_uuid 0) 1700000000 1700000000] [])
          (Some []) 5 5 [] [].

(** Two stored conversations with messages; the two messages of the
    first were stored in the opposite order of their timestamps. The
    clock is five readings in. *)
Definition busy_state : State :=
  mkState (mkDB [mkConversation (demo_uuid 0) 1700000000 1700000002;
                 mkConversation (demo_uuid 1) 1700000000 1700000003]
                [mkMessage (demo_uuid 3) (demo_uuid 0) Ai "Hi there!" 1700000002;
                 mkMessage (demo_uuid 2) (demo_uuid 0) User "Hello" 1700000001;
                 mkMessage (demo_uuid 4) (demo_uuid 1) User "Where is my order?" 1700000003])
          (Some []) 5 5 [] [].

(** A wall clock set back by one minute after its first reading (as an
    NTP correction can do to [Date.now()]). *)
Definition clock_back (k : nat) : Z :=
  if (k =? 0)%nat then 1700000060000 else 1700000000000.



End Demo.

(* ================================================================== *)
(** * Properties *)

(** ** String lemmas *)





(** ** C6: error normalization *)




(** ** C8: history truncation *)

Lemma str_app_assoc (a b c : string) : ((a ++ b) ++ c = a ++ b ++ c)%string.
Proof. induction a as [|x a IH]; simpl; [reflexivity | rewrite IH; reflexivity]. Qed.

Lemma str_app_nil (a : string) : (a ++ "")%string = a.
Proof. induction a as [|x a IH]; simpl; [reflexivity | rewrite IH; reflexivity]. Qed.

Lemma fold_left_append {A} (f : A -> string) (l : list A) (acc : string) :
  fold_left (fun acc x => acc ++ f x) l acc = (acc ++ Spec.cat (map f l))%string.
Proof.
  revert acc. induction l as [|x l IH]; intros acc; simpl.
  - symmetry. apply str_app_nil.
  - rewrite IH, str_app_assoc. reflexivity.
Qed.

Lemma slice_neg_most_recent {A} (n : nat) (l : list A) :
  JS.slice_neg n l = Spec.most_recent n l.
Proof.
  unfold JS.slice_neg, Spec.most_recent.
  rewrite firstn_rev, rev_involutive. reflexivity.
Qed.

(** C8. Every provider variant builds its prompt from exactly the 10 most
    recent messages of the history (the whole history when it has at most
    10), oldest first: the truncated history is a suffix of the history of
    length [min 10 (length history)], and both the chat-completions
    message array (OpenAI, Groq) and the Gemini prompt consist of the
    system instruction, that truncated history in order, then the new
    user message. *)
Theorem prompt_uses_recent_history (userMessage : string) (history : list Message) :
  let recent := JS.slice_neg LLM.maxHistoryMessages history in
  recent = Spec.most_recent 10 history /\
  (exists older, history = (older ++ recent)%list) /\
  length recent = Nat.min 10 (length history) /\
  LLM.chat_messages userMessage history
  = mkParam "system" LLM.STORE_KNOWLEDGE
    :: (map LLM.to_param recent ++ [mkParam "user" userMessage])%list /\
  LLM.gemini_prompt userMessage history
  = (LLM.STORE_KNOWLEDGE ++ LLM.nl ++ LLM.nl ++ "Conversation History:" ++ LLM.nl
     ++ Spec.cat (map (fun msg => (match msg_sender msg with
                                   | User => "Customer" | Ai => "Agent" end)
                                  ++ ": " ++ msg_text msg ++ LLM.nl) recent))
    ++ LLM.nl ++ "Customer: " ++ userMessage ++ LLM.nl ++ "Agent:".
Proof.
  intros recent. repeat split.
  - apply slice_neg_most_recent.
  - exists (firstn (length history - LLM.maxHistoryMessages) history).
    symmetry. apply firstn_skipn.
  - subst recent. unfold JS.slice_neg. rewrite length_skipn.
    unfold LLM.maxHistoryMessages. lia.
  - unfold LLM.gemini_prompt. fold recent. rewrite fold_left_append. reflexivity.
Qed.

(** ** Monad lemmas *)

Lemma bind_ok {A B} (m : M A) (k : A -> M B) E s r s' :
  bind m k E s = (Ok r, s') ->
  exists a s1, m E s = (Ok a, s1) /\ k a E s1 = (Ok r, s').
Proof.
  unfold bind. destruct (m E s) as [[a|e] s1]; intros H; [eauto | discriminate].
Qed.

Lemma try_catch_ok {A} (m : M A) h E s r s' :
  try_catch m h E s = (Ok r, s') ->
  m E s = (Ok r, s') \/ exists e s1, m E s = (Err e, s1) /\ h e E s1 = (Ok r, s').
Proof.
  unfold try_catch. destruct (m E s) as [[a|e] s1]; intros H; [left | right; eauto].
  exact H.
Qed.

Lemma throw_not_ok {A} (e : Exn) E s (r : A) s' : throw e E s <> (Ok r, s').
Proof. discriminate. Qed.

Lemma handleError_not_ok {A} e p E s (r : A) s' : LLM.handleError e p E s <> (Ok r, s').
Proof. destruct e; discriminate. Qed.

(** ** C10: replies are trimmed and non-empty *)

Lemma drop_ws_suffix (l : list ascii) : exists p, l = (p ++ JS.drop_ws l)%list.
Proof.
  induction l as [|c l IH]; simpl.
  - exists []. reflexivity.
  - destruct (JS.is_ws c).
    + destruct IH as [p Hp]. exists (c :: p). simpl. rewrite <- Hp. reflexivity.
    + exists []. reflexivity.
Qed.

Lemma drop_ws_head (l : list ascii) :
  match JS.drop_ws l with [] => True | c :: _ => JS.is_ws c = false end.
Proof.
  induction l as [|c l IH]; simpl; [exact I|].
  destruct (JS.is_ws c) eqn:Hc; [exact IH | exact Hc].
Qed.

Lemma trim_edges (x : string) : Spec.edges_not_ws (JS.trim x) = true.
Proof.
  unfold Spec.edges_not_ws, JS.trim.
  rewrite list_ascii_of_string_of_list_ascii.
  set (l1 := JS.drop_ws (list_ascii_of_string x)).
  pose proof (drop_ws_head (list_ascii_of_string x)) as Hh1. fold l1 in Hh1.
  destruct (drop_ws_suffix (rev l1)) as [p Hp].
  pose proof (drop_ws_head (rev l1)) as Hh2.
  destruct (JS.drop_ws (rev l1)) as [|d t] eqn:Ed; [reflexivity|].
  simpl rev. simpl in Hh2.
  destruct (rev t ++ [d])%list as [|c l2] eqn:E2; [destruct (rev t); discriminate|].
  (* the trimmed list is a prefix of [l1], so its head is the head of [l1] *)
  assert (Hpre : l1 = (c :: l2 ++ rev p)%list).
  { rewrite <- (rev_involutive l1), Hp, rev_app_distr. simpl rev at 1.
    rewrite E2. reflexivity. }
  rewrite Hpre in Hh1. simpl in Hh1. rewrite Hh1. cbn [negb andb].
  (* and its last character is the head of [drop_ws (rev l1)] *)
  replace (last l2 c) with (last (c :: l2) c) by (destruct l2; reflexivity).
  rewrite <- E2, last_last, Hh2. reflexivity.
Qed.

Lemma check_reply_ok content p E s r s' :
  LLM.check_reply content p E s = (Ok r, s') ->
  exists x, content = Some x /\ r = JS.trim x /\ JS.truthy r = true.
Proof.
  unfold LLM.check_reply. destruct content as [x|]; simpl; [|discriminate].
  destruct (JS.truthy (JS.trim x)) eqn:Ht; [|discriminate].
  intros H. inversion H; subst. eauto.
Qed.

Lemma generateWith_ok p userMessage history E s r s' :
  LLM.generateWith p userMessage history E s = (Ok r, s') ->
  exists x, r = JS.trim x /\ JS.truthy r = true.
Proof.
  intros H. destruct p; simpl in H.
  - unfold LLM.generateWithOpenAI in H.
    apply bind_ok in H as (k & s1 & _ & H); cbv beta zeta in H.
    match type of H with
    | (if negb ?b then _ else _) _ _ = _ => destruct b
    end; simpl in H; [|discriminate].
    apply try_catch_ok in H as [H | (e & s2 & _ & H)].
    + apply bind_ok in H as (b & s3 & _ & H).
      apply bind_ok in H as (c & s2 & _ & H). apply check_reply_ok in H.
      destruct H as (x & _ & Hr & Ht). eauto.
    + apply handleError_not_ok in H. contradiction.
  - unfold LLM.generateWithGroq in H.
    apply bind_ok in H as (k & s1 & _ & H); cbv beta zeta in H.
    match type of H with
    | (if ?b then _ else _) _ _ = _ => destruct b
    end; [discriminate|].
    apply try_catch_ok in H as [H | (e & s2 & _ & H)].
    + apply bind_ok in H as (c & s2 & _ & H). apply check_reply_ok in H.
      destruct H as (x & _ & Hr & Ht). eauto.
    + apply handleError_not_ok in H. contradiction.
  - unfold LLM.generateWithGemini in H.
    apply bind_ok in H as (k & s1 & _ & H); cbv beta zeta in H.
    match type of H with
    | (if ?b then _ else _) _ _ = _ => destruct b
    end; [discriminate|].
    apply try_catch_ok in H as [H | (e & s2 & _ & H)].
    + apply bind_ok in H as (c & s2 & _ & H). apply check_reply_ok in H.
      destruct H as (x & _ & Hr & Ht). eauto.
    + apply handleError_not_ok in H. contradiction.
Qed.

Lemma truthy_neq_empty (r : string) : JS.truthy r = true -> r <> "".
Proof. destruct r; [discriminate | intros _ Hc; discriminate]. Qed.

(** C10. Whatever the provider, a reply produced by a provider branch (and
    so by [generateReply] when no cached reply is used) is the trimmed
    backend text and is non-empty, with no whitespace at either end;
    when the trimmed text is empty the branch throws the empty-response
    error instead, which its [catch] hands to [handleError]. *)
Theorem provider_reply_trimmed_nonempty (p : LLM.Provider) :
  (forall userMessage history E s r s',
     LLM.generateWith p userMessage history E s = (Ok r, s') ->
     r <> "" /\ Spec.edges_not_ws r = true) /\
  (forall x E s, JS.trim x = "" ->
     let name := Spec.provider_name p in
     LLM.check_reply (Some x) name E s
     = (Err (Thrown (new_Error ("Empty response from " ++ name))), s) /\
     try_catch (LLM.check_reply (Some x) name) (fun e => LLM.handleError e name) E s
     = (Err (Thrown (new_Error ("Failed to generate reply with " ++ name
                                ++ ": Empty response from " ++ name))), s)).
Proof.
  split.
  - intros u h E s r s' H.
    destruct (generateWith_ok p u h E s r s' H) as (x & Hr & Ht).
    split; [now apply truthy_neq_empty|]. subst r. apply trim_edges.
  - intros x E s Hx name.
    unfold LLM.check_reply. simpl. rewrite Hx. simpl.
    split; [reflexivity|].
    unfold try_catch, LLM.handleError, LLM.handleError_message. simpl.
    destruct p; reflexivity.
Qed.

(** Witness of [provider_reply_trimmed_nonempty]: OpenAI answering
    ["  Hello!  "] yields ["Hello!"]; a blank answer is the empty-response error. *)
Lemma provider_reply_trimmed_nonempty_witness :
  LLM.generateWith LLM.OpenAI "Hi" [] (Demo.env Demo.ticking "  Hello!  ") Demo.state0
  = (Ok "Hello!",
     snd (LLM.generateWith LLM.OpenAI "Hi" [] (Demo.env Demo.ticking "  Hello!  ")
            Demo.state0)) /\
  ("Hello!" <> "" /\ Spec.edges_not_ws "Hello!" = true) /\
  JS.trim "   " = "".
Proof.
  split; [reflexivity|]. split; [|reflexivity].
  apply (proj1 (provider_reply_trimmed_nonempty LLM.OpenAI) "Hi" []
           (Demo.env Demo.ticking "  Hello!  ") Demo.state0 "Hello!"
           (snd (LLM.generateWith LLM.OpenAI "Hi" [] (Demo.env Demo.ticking "  Hello!  ")
                   Demo.state0))).
  reflexivity.
Defined.

(** ** Store operations, evaluated *)

Definition now_at (E : Env) (k : nat) : Z := clock_ms E k / 1000.

(** State after one [uuidv4()] and one [Date.now()]. *)
Definition tick_both (s : State) : State :=
  mkState (st_db s) (st_redis s) (S (st_ticks s)) (S (st_uuids s))
          (st_commits s) (st_calls s).

Lemma addMessage_eval cid sd txt E s :
  Store.addMessage cid sd txt E s =
  let m := mkMessage (uuid_gen E (st_uuids s)) cid sd txt (now_at E (st_ticks s)) in
  match Store.find_conversation (st_db s) cid with
  | None => (Err (Thrown (new_Error "Conversation not found")), tick_both s)
  | Some _ =>
      match Store.insert_message m (st_db s) with
      | None => (Err (Thrown (Store.sqlite_error "SQLITE_CONSTRAINT_PRIMARYKEY"
                                                 "UNIQUE constraint failed: messages.id")),
                 tick_both s)
      | Some d1 =>
          let d2 := Store.set_updated_at (now_at E (st_ticks s)) cid d1 in
          (Ok m, mkState d2 (st_redis s) (S (st_ticks s)) (S (st_uuids s))
                         ((st_commits s ++ [d1]) ++ [d2]) (st_calls s))
      end
  end.
Proof.
  unfold Store.addMessage, Store.now_seconds, Store.getConversation, bind, ret,
    uuidv4, Date_now, read_db, throw, exec_sql, now_at, tick_both.
  destruct s as [db r t u cm cl]. simpl.
  destruct (Store.find_conversation db cid); [|reflexivity]. simpl.
  destruct (Store.insert_message _ db) eqn:Hi; simpl; rewrite ?Hi; reflexivity.
Qed.

Lemma createConversation_eval E s :
  Store.createConversation E s =
  let c := mkConversation (uuid_gen E (st_uuids s)) (now_at E (st_ticks s))
                          (now_at E (st_ticks s)) in
  match Store.insert_conversation c (st_db s) with
  | None => (Err (Thrown (Store.sqlite_error "SQLITE_CONSTRAINT_PRIMARYKEY"
                                             "UNIQUE constraint failed: conversations.id")),
             tick_both s)
  | Some d =>
      (Ok (conv_id c), mkState d (st_redis s) (S (st_ticks s)) (S (st_uuids s))
                               (st_commits s ++ [d]) (st_calls s))
  end.
Proof.
  unfold Store.createConversation, Store.now_seconds, bind, ret, uuidv4, Date_now,
    exec_sql, now_at, tick_both.
  destruct s as [db r t u cm cl]. simpl.
  destruct (Store.insert_conversation _ db) eqn:Hi; simpl; rewrite ?Hi; reflexivity.
Qed.

Lemma existsb_msg_id_false (l : list Message) (id : string) :
  ~ In id (map msg_id l) ->
  existsb (fun m' => String.eqb (msg_id m') id) l = false.
Proof.
  intros Hn. destruct (existsb _ l) eqn:He; [|reflexivity].
  apply existsb_exists in He as (x & Hx & Heq).
  apply String.eqb_eq in Heq. subst id. exfalso. apply Hn, in_map, Hx.
Qed.

Lemma insert_message_some m d d1 :
  Store.insert_message m d = Some d1 -> d1 = mkDB (conversations d) (messages d ++ [m]).
Proof.
  unfold Store.insert_message.
  destruct (existsb _ _); [discriminate|].
  destruct (Store.find_conversation _ _); [|discriminate].
  intros H; inversion H; reflexivity.
Qed.

Lemma insert_conversation_some c d d1 :
  Store.insert_conversation c d = Some d1 -> d1 = mkDB (conversations d ++ [c]) (messages d).
Proof.
  unfold Store.insert_conversation.
  destruct (Store.find_conversation _ _); [discriminate|].
  intros H; inversion H; reflexivity.
Qed.

(** ** C5: [appendMessage] *)

(** C5 (as the code does it). [addMessage] on an unknown conversation
    throws ["Conversation not found"] and writes nothing; on an existing
    one (and a fresh message id) it returns the message after two
    separate autocommit statements: the INSERT of the message, committed
    on its own, then the UPDATE setting the conversation's [updated_at]
    to the message's timestamp. *)
Theorem appendMessage_two_writes cid sd txt E s :
  let m := mkMessage (uuid_gen E (st_uuids s)) cid sd txt (now_at E (st_ticks s)) in
  let res := Store.addMessage cid sd txt E s in
  (Store.find_conversation (st_db s) cid = None ->
     fst res = Err (Thrown (new_Error "Conversation not found")) /\
     st_db (snd res) = st_db s /\ st_commits (snd res) = st_commits s) /\
  (forall c, Store.find_conversation (st_db s) cid = Some c ->
     ~ In (msg_id m) (map msg_id (messages (st_db s))) ->
     let d1 := mkDB (conversations (st_db s)) (messages (st_db s) ++ [m])%list in
     fst res = Ok m /\
     st_db (snd res) = Store.set_updated_at (msg_timestamp m) cid d1 /\
     st_commits (snd res) = (st_commits s ++ [d1; st_db (snd res)])%list).
Proof.
  intros m res. subst res. rewrite addMessage_eval. fold m. split.
  - intros Hn. rewrite Hn. simpl. auto.
  - intros c Hc Hfresh d1. rewrite Hc.
    unfold Store.insert_message.
    rewrite (existsb_msg_id_false _ _ Hfresh). simpl. rewrite Hc. simpl.
    rewrite <- app_assoc. auto.
Qed.

(** Witness of [appendMessage_two_writes] on a stored conversation. *)
Lemma appendMessage_two_writes_witness :
  let E := Demo.env Demo.ticking "x" in
  let s := Demo.conv_state in
  Store.find_conversation (st_db s) (Demo.demo_uuid 0)
    = Some (mkConversation (Demo.demo_uuid 0) 1700000000 1700000000) /\
  fst (Store.addMessage (Demo.demo_uuid 0) User "Hi" E s)
    = Ok (mkMessage (uuid_gen E (st_uuids s)) (Demo.demo_uuid 0) User "Hi"
                    (now_at E (st_ticks s))).
Proof.
  intros E s. split; [reflexivity|].
  apply (proj2 (appendMessage_two_writes (Demo.demo_uuid 0) User "Hi" E s)
           (mkConversation (Demo.demo_uuid 0) 1700000000 1700000000)).
  - reflexivity.
  - simpl. tauto.
Defined.

(** C5 (as the spec states it) fails: right after the first statement
    commits, another connection sees the new message while the
    conversation's [updated_at] still has its old value, so the two
    writes are not observed atomically. *)
Lemma appendMessage_not_atomic :
  let res := Store.addMessage (Demo.demo_uuid 0) User "Hi"
                              (Demo.env Demo.ticking "x") Demo.conv_state in
  exists m d,
    fst res = Ok m /\ In d (st_commits (snd res)) /\ In m (messages d) /\
    option_map updated_at (Store.find_conversation d (Demo.demo_uuid 0))
      <> Some (msg_timestamp m).
Proof.
  vm_compute. do 2 eexists. split; [reflexivity|].
  split; [left; reflexivity|]. split; [left; reflexivity|].
  discriminate.
Qed.

(** ** Store invariants over sequences of operations *)

Lemma find_conversation_app cs1 cs2 ms x :
  Store.find_conversation (mkDB (cs1 ++ cs2) ms) x =
  match Store.find_conversation (mkDB cs1 ms) x with
  | Some c => Some c
  | None => Store.find_conversation (mkDB cs2 ms) x
  end.
Proof.
  unfold Store.find_conversation; simpl.
  induction cs1 as [|c cs1 IH]; simpl; [reflexivity|].
  destruct (String.eqb (conv_id c) x); [reflexivity | exact IH].
Qed.

Lemma find_conversation_msgs cs ms ms' x :
  Store.find_conversation (mkDB cs ms) x = Store.find_conversation (mkDB cs ms') x.
Proof. reflexivity. Qed.

Lemma find_conversation_set ts id d x :
  Store.find_conversation (Store.set_updated_at ts id d) x =
  option_map (fun c => if String.eqb (conv_id c) id
                       then mkConversation (conv_id c) (created_at c) ts else c)
             (Store.find_conversation d x).
Proof.
  unfold Store.find_conversation, Store.set_updated_at; simpl.
  induction (conversations d) as [|c cs IH]; simpl; [reflexivity|].
  destruct (String.eqb (conv_id c) id) eqn:Hid; simpl;
    destruct (String.eqb (conv_id c) x); simpl; rewrite ?Hid; auto.
Qed.

Lemma find_conversation_in d x c :
  Store.find_conversation d x = Some c -> In c (conversations d) /\ conv_id c = x.
Proof.
  unfold Store.find_conversation. intros H.
  destruct (find_some _ _ H) as [Hin Heq]. apply String.eqb_eq in Heq. auto.
Qed.

(** Messages refer to stored conversations (the enforced foreign key). *)
Definition fk_ok (d : DB) : Prop :=
  forall m, In m (messages d) -> Store.find_conversation d (msg_conversation_id m) <> None.

(** [updated_at] bounds, and every stored time is at most the next clock reading. *)
Definition time_inv (E : Env) (s : State) : Prop :=
  Spec.timestamps_ok (st_db s) /\
  (forall c, In c (conversations (st_db s)) -> updated_at c <= now_at E (st_ticks s)) /\
  (forall m, In m (messages (st_db s)) -> msg_timestamp m <= now_at E (st_ticks s)).

Lemma now_at_mono E i j :
  Spec.clock_monotone E -> (i <= j)%nat -> now_at E i <= now_at E j.
Proof. intros Hm Hij. unfold now_at. apply Z.div_le_mono; [lia | apply Hm, Hij]. Qed.

Lemma run_op_cases op E s :
  let s' := snd (Spec.run_op op E s) in
  st_ticks s' = S (st_ticks s) /\
  (st_db s' = st_db s \/
   (exists id, st_db s' = mkDB (conversations (st_db s)
                                 ++ [mkConversation id (now_at E (st_ticks s))
                                                    (now_at E (st_ticks s))])
                               (messages (st_db s))) \/
   (exists m c, msg_timestamp m = now_at E (st_ticks s) /\
                Store.find_conversation (st_db s) (msg_conversation_id m) = Some c /\
                st_db s' = Store.set_updated_at (msg_timestamp m) (msg_conversation_id m)
                             (mkDB (conversations (st_db s)) (messages (st_db s) ++ [m])))).
Proof.
  intros s'. subst s'. destruct op as [|cid sd txt]; unfold Spec.run_op, try_catch, bind, ret.
  - rewrite createConversation_eval. cbv zeta.
    destruct (Store.insert_conversation _ (st_db s)) eqn:Hi; simpl.
    + apply insert_conversation_some in Hi. subst. split; [reflexivity|]. right; left; eauto.
    + split; [reflexivity | left; reflexivity].
  - rewrite addMessage_eval. cbv zeta.
    destruct (Store.find_conversation (st_db s) cid) as [c|] eqn:Hf; simpl;
      [|split; [reflexivity | left; reflexivity]].
    destruct (Store.insert_message _ (st_db s)) eqn:Hi; simpl;
      [|split; [reflexivity | left; reflexivity]].
    apply insert_message_some in Hi. subst. split; [reflexivity|].
    right; right. exists (mkMessage (uuid_gen E (st_uuids s)) cid sd txt (now_at E (st_ticks s))), c.
    simpl. auto.
Qed.

Lemma run_op_fk op E s :
  fk_ok (st_db s) -> fk_ok (st_db (snd (Spec.run_op op E s))).
Proof.
  intros Hfk.
  destruct (run_op_cases op E s) as (_ & [Hd | [(id & Hd) | (m & c & Hts & Hc & Hd)]]);
    rewrite Hd; clear Hd.
  - exact Hfk.
  - intros m Hm. simpl in Hm. rewrite find_conversation_app.
    destruct (st_db s) as [cs ms]. simpl in *.
    specialize (Hfk m Hm). unfold Store.find_conversation in *; simpl in *.
    destruct (find _ cs); [discriminate | contradiction].
  - intros m' Hm'. rewrite find_conversation_set.
    destruct (st_db s) as [cs ms] eqn:Hdb. simpl in Hm'.
    rewrite (find_conversation_msgs cs (ms ++ [m]) ms).
    apply in_app_or in Hm' as [Hm' | [<- | []]].
    + specialize (Hfk m' Hm'). simpl in Hfk.
      destruct (Store.find_conversation _ _); [discriminate | contradiction].
    + rewrite Hc. discriminate.
Qed.

Lemma run_op_time op E s :
  Spec.clock_monotone E -> time_inv E s -> time_inv E (snd (Spec.run_op op E s)).
Proof.
  intros Hmono (Hok & Hupd & Hmsg).
  destruct (run_op_cases op E s) as (Hticks & [Hd | [(id & Hd) | (m & c & Hts & Hc & Hd)]]);
    unfold time_inv; rewrite Hd, Hticks; clear Hd Hticks;
    pose proof (now_at_mono E (st_ticks s) (S (st_ticks s)) Hmono (Nat.le_succ_diag_r _)) as Hnext.
  - split; [exact Hok|]. split.
    + intros c Hc. specialize (Hupd c Hc). lia.
    + intros m Hm. specialize (Hmsg m Hm). lia.
  - simpl. split; [|split].
    + intros c Hc. simpl in Hc. apply in_app_or in Hc as [Hc | [<- | []]].
      * exact (Hok c Hc).
      * simpl. split; [lia|]. intros m Hm _. exact (Hmsg m Hm).
    + intros c Hc. apply in_app_or in Hc as [Hc | [<- | []]].
      * specialize (Hupd c Hc). lia.
      * simpl. lia.
    + intros m Hm. specialize (Hmsg m Hm). lia.
  - simpl. split; [|split].
    + intros c' Hc'. apply in_map_iff in Hc' as (c0 & Hc0 & Hin).
      destruct (String.eqb (conv_id c0) (msg_conversation_id m)) eqn:Hid; subst c'.
      * apply String.eqb_eq in Hid. simpl.
        destruct (Hok c0 Hin) as [Hcr _]. specialize (Hupd c0 Hin).
        split; [lia|].
        intros m' Hm' _. apply in_app_or in Hm' as [Hm' | [<- | []]]; [|lia].
        specialize (Hmsg m' Hm'). lia.
      * apply String.eqb_neq in Hid.
        destruct (Hok c0 Hin) as [Hcr Hms]. split; [exact Hcr|].
        intros m' Hm' Hcid. apply in_app_or in Hm' as [Hm' | [<- | []]].
        -- exact (Hms m' Hm' Hcid).
        -- congruence.
    + intros c' Hc'. apply in_map_iff in Hc' as (c0 & Hc0 & Hin).
      destruct (String.eqb (conv_id c0) (msg_conversation_id m)); subst c'; simpl.
      * lia.
      * specialize (Hupd c0 Hin). lia.
    + intros m' Hm'. apply in_app_or in Hm' as [Hm' | [<- | []]].
      * specialize (Hmsg m' Hm'). lia.
      * lia.
Qed.

Lemma run_ops_preserve (P : Env -> State -> Prop) E :
  (forall op s, P E s -> P E (snd (Spec.run_op op E s))) ->
  forall ops s, P E s -> P E (snd (Spec.run_ops ops E s)).
Proof.
  intros Hstep ops. induction ops as [|op ops IH]; intros s Hs; simpl; [exact Hs|].
  unfold bind. destruct (Spec.run_op op E s) as [r s1] eqn:Hr.
  assert (Hs1 : P E s1) by (replace s1 with (snd (Spec.run_op op E s)) by (rewrite Hr; reflexivity);
                            apply Hstep, Hs).
  destruct r as [[]|e]; [apply IH, Hs1 | exact Hs1].
Qed.

Lemma ticking_monotone (answer : string) : Spec.clock_monotone (Demo.env Demo.ticking answer).
Proof. intros i j Hij. simpl. unfold Demo.ticking. lia. Qed.

(** ** C7: timestamp invariant *)

(** C7 (as the code does it). Starting from an empty database, after any sequence of
    [createConversation] and [addMessage] calls (each possibly failing),
    every conversation has [updated_at >= created_at] and [updated_at]
    at least the timestamp of each of its messages, provided the wall
    clock read by [Date.now()] never goes back. *)
Theorem updated_at_dominates ops E s0 :
  st_db s0 = empty_db ->
  Spec.clock_monotone E ->
  Spec.timestamps_ok (st_db (snd (Spec.run_ops ops E s0))).
Proof.
  intros H0 Hmono.
  apply (run_ops_preserve time_inv E (fun op s => run_op_time op E s Hmono)).
  unfold time_inv. rewrite H0. split; [intros c []|split; [intros c [] | intros m []]].
Qed.

(** Witness of [updated_at_dominates]: create a conversation, then append to it. *)
Lemma updated_at_dominates_witness :
  st_db Demo.state0 = empty_db /\
  Spec.clock_monotone (Demo.env Demo.ticking "x") /\
  Spec.timestamps_ok
    (st_db (snd (Spec.run_ops [Spec.OpCreate; Spec.OpAppend (Demo.demo_uuid 0) User "Hi"]
                              (Demo.env Demo.ticking "x") Demo.state0))).
Proof.
  split; [reflexivity|]. split; [apply ticking_monotone|].
  apply updated_at_dominates; [reflexivity | apply ticking_monotone].
Defined.

(** C7 (as the spec states it) fails: both operations take their
    timestamps from [Date.now()], so when the clock goes back between
    [createConversation] and [addMessage], the append sets [updated_at]
    below [created_at]. *)
Lemma updated_at_below_created_at :
  let E := Demo.env Demo.clock_back "x" in
  let d := st_db (snd (Spec.run_ops [Spec.OpCreate; Spec.OpAppend (Demo.demo_uuid 0) User "Hi"]
                                    E Demo.state0)) in
  Store.find_conversation d (Demo.demo_uuid 0)
    = Some (mkConversation (Demo.demo_uuid 0) 1700000060 1700000000) /\
  ~ Spec.timestamps_ok d.
Proof.
  intros E d. split; [vm_compute; reflexivity|].
  intros H. destruct (H (mkConversation (Demo.demo_uuid 0) 1700000060 1700000000)) as [Hle _].
  - vm_compute. left. reflexivity.
  - simpl in Hle. lia.
Qed.

(** ** C9: unknown conversations have no messages *)

Lemma filter_all_false {A} (f : A -> bool) (l : list A) :
  (forall x, In x l -> f x = false) -> filter f l = [].
Proof.
  induction l as [|x l IH]; intros H; simpl; [reflexivity|].
  rewrite (H x (or_introl eq_refl)). apply IH. intros y Hy. apply H. right. exact Hy.
Qed.

(** C9. In any state reached from an empty database by store operations,
    [getMessages] on an identifier with no conversation returns the empty
    list and raises nothing, exactly as for a stored conversation without
    messages. *)
Theorem getMessages_unknown_empty ops E s0 cid :
  st_db s0 = empty_db ->
  let s := snd (Spec.run_ops ops E s0) in
  Store.find_conversation (st_db s) cid = None ->
  Store.getMessages cid E s = (Ok [], s).
Proof.
  intros H0 s Hnone.
  assert (Hfk : fk_ok (st_db s)).
  { apply (run_ops_preserve (fun _ s => fk_ok (st_db s)) E (fun op s => run_op_fk op E s)).
    rewrite H0. intros m []. }
  unfold Store.getMessages, bind, read_db, ret, Store.select_messages, Store.messages_of.
  rewrite filter_all_false; [reflexivity|].
  intros m Hm. apply String.eqb_neq. intros Heq.
  apply (Hfk m Hm). rewrite Heq. exact Hnone.
Qed.

(** Witness of [getMessages_unknown_empty]. *)
Lemma getMessages_unknown_empty_witness :
  let s := snd (Spec.run_ops [Spec.OpCreate; Spec.OpAppend (Demo.demo_uuid 0) User "Hi"]
                             (Demo.env Demo.ticking "x") Demo.state0) in
  st_db Demo.state0 = empty_db /\
  Store.find_conversation (st_db s) "unknown" = None /\
  Store.getMessages "unknown" (Demo.env Demo.ticking "x") s = (Ok [], s).
Proof.
  intros s. split; [reflexivity|]. split; [vm_compute; reflexivity|].
  apply getMessages_unknown_empty; [reflexivity | vm_compute; reflexivity].
Defined.

(** ** The LLM service leaves the database, clock and id readings alone *)

Definition frame {A} (m : M A) : Prop :=
  forall E s, let s' := snd (m E s) in
  st_db s' = st_db s /\ st_ticks s' = st_ticks s /\
  st_uuids s' = st_uuids s /\ st_commits s' = st_commits s.

Lemma frame_ret {A} (a : A) : frame (ret a).
Proof. intros E s. simpl. auto. Qed.

Lemma frame_throw {A} e : frame (A := A) (throw e).
Proof. intros E s. simpl. auto. Qed.

Lemma frame_bind {A B} (m : M A) (k : A -> M B) :
  frame m -> (forall a, frame (k a)) -> frame (bind m k).
Proof.
  intros Hm Hk E s. unfold bind. specialize (Hm E s).
  destruct (m E s) as [[a|e] s1]; simpl in *; [|exact Hm].
  destruct (Hk a E s1) as (H1 & H2 & H3 & H4).
  destruct Hm as (G1 & G2 & G3 & G4). repeat split; congruence.
Qed.

Lemma frame_try_catch {A} (m : M A) h :
  frame m -> (forall e, frame (h e)) -> frame (try_catch m h).
Proof.
  intros Hm Hh E s. unfold try_catch. specialize (Hm E s).
  destruct (m E s) as [[a|e] s1]; simpl in *; [exact Hm|].
  destruct (Hh e E s1) as (H1 & H2 & H3 & H4).
  destruct Hm as (G1 & G2 & G3 & G4). repeat split; congruence.
Qed.

Lemma frame_process_env name : frame (process_env name).
Proof. intros E s. simpl. auto. Qed.

Lemma frame_get_env : frame get_env.
Proof. intros E s. simpl. auto. Qed.

Lemma frame_log_call c : frame (log_call c).
Proof. intros E s. simpl. auto. Qed.

Lemma frame_cache_get msg : frame (Cache.get msg).
Proof. intros E s. unfold Cache.get. destruct (st_redis s); simpl; auto. Qed.

Lemma frame_cache_set msg reply : frame (Cache.set msg reply).
Proof. intros E s. unfold Cache.set. destruct (st_redis s); simpl; auto. Qed.

Lemma frame_handleError {A} e p : frame (A := A) (LLM.handleError e p).
Proof. destruct e; apply frame_throw. Qed.

Create HintDb frame.
#[local] Hint Resolve frame_ret frame_throw frame_process_env frame_get_env frame_log_call
  frame_cache_get frame_cache_set frame_handleError : frame.

(** Split binds, handlers and branches into their pieces. *)
Ltac frame_tac :=
  repeat match goal with
         | |- frame (bind _ _) => apply frame_bind; [|intro]
         | |- frame (try_catch _ _) => apply frame_try_catch; [|intro]
         | |- frame (if ?b then _ else _) => destruct b
         | |- frame (match ?x with _ => _ end) => destruct x
         | |- frame _ => solve [eauto with frame]
         end.

Lemma frame_call_chat u r : frame (LLM.call_chat u r).
Proof.
  unfold LLM.call_chat. apply frame_bind; [auto with frame|intros _].
  apply frame_bind; [auto with frame|intros E'].
  destruct (chat_backend E' u r); auto with frame.
Qed.

Lemma frame_call_gemini r : frame (LLM.call_gemini r).
Proof.
  unfold LLM.call_gemini. apply frame_bind; [auto with frame|intros _].
  apply frame_bind; [auto with frame|intros E'].
  destruct (gemini_backend E' r); auto with frame.
Qed.

Lemma frame_check_reply c p : frame (LLM.check_reply c p).
Proof.
  unfold LLM.check_reply. destruct (option_map JS.trim c); [|auto with frame].
  destruct (JS.truthy s); auto with frame.
Qed.

#[local] Hint Resolve frame_call_chat frame_call_gemini frame_check_reply : frame.

Lemma frame_generateReply u h : frame (LLM.generateReply u h).
Proof.
  assert (Hgen : forall p, frame (LLM.generateWith p u h)).
  { intros []; simpl;
      [unfold LLM.generateWithOpenAI | unfold LLM.generateWithGroq
      | unfold LLM.generateWithGemini]; frame_tac. }
  assert (Hprov : frame LLM.getProvider).
  { unfold LLM.getProvider. frame_tac. }
  unfold LLM.generateReply. frame_tac.
Qed.

(** ** C4: a turn on an existing conversation *)

Lemma messages_of_set ts id d x :
  Store.messages_of (Store.set_updated_at ts id d) x = Store.messages_of d x.
Proof. reflexivity. Qed.

(** C4 (as the code does it). A successful [POST /message] carrying the
    id of a stored conversation answers with that id and appends exactly
    two messages to it, the user's message with the submitted text and
    then the agent's ([ai]) message with the reply; the conversation's
    [updated_at] becomes the agent message's timestamp (the clock in
    whole seconds at that write), [created_at] unchanged. *)
Theorem turn_appends_user_then_agent (message sid : string) E s reply sid' s' :
  Chat.post_message (Chat.mkBody (Some message) (Some sid)) E s
    = (Ok (Chat.R200 reply sid'), s') ->
  Store.find_conversation (st_db s) sid <> None ->
  sid' = sid /\
  exists u a c,
    Store.messages_of (st_db s') sid = (Store.messages_of (st_db s) sid ++ [u; a])%list /\
    msg_sender u = User /\ msg_text u = message /\
    msg_sender a = Ai /\ msg_text a = reply /\
    Store.find_conversation (st_db s) sid = Some c /\
    Store.find_conversation (st_db s') sid
      = Some (mkConversation sid (created_at c) (msg_timestamp a)).
Proof.
  intros H Hex.
  unfold Chat.post_message in H.
  apply try_catch_ok in H as [H | (e & s1 & _ & H)];
    [| destruct e; simpl in H; discriminate].
  apply bind_ok in H as (parsed & s1 & Hp & H).
  unfold Chat.messageSchema_parse in Hp. cbn [Chat.body_message Chat.body_sessionId] in Hp.
  destruct (negb _); [discriminate|].
  destruct (Chat.is_uuid sid); [|discriminate].
  inversion Hp; subst parsed s1; clear Hp. cbv beta iota in H.
  (* resolve_conversation *)
  apply bind_ok in H as (cid & s2 & Hr & H).
  unfold Chat.resolve_conversation, Store.getConversation, bind, read_db, ret in Hr.
  destruct (Store.find_conversation (st_db s) sid) as [c|] eqn:Hf; [|contradiction].
  inversion Hr; subst cid s2; clear Hr.
  (* first addMessage *)
  apply bind_ok in H as (m1 & s3 & Ha1 & H).
  rewrite addMessage_eval in Ha1. cbv zeta in Ha1. rewrite Hf in Ha1.
  destruct (Store.insert_message _ (st_db s)) as [d1|] eqn:Hi1; [|discriminate].
  apply insert_message_some in Hi1.
  inversion Ha1; subst m1 s3; clear Ha1.
  (* getMessages *)
  apply bind_ok in H as (hist & s4 & Hg & H).
  unfold Store.getMessages, bind, read_db, ret in Hg. inversion Hg; subst hist s4; clear Hg.
  (* generateReply *)
  apply bind_ok in H as (rep & s5 & Hgen & H).
  pose proof (frame_generateReply message
                (Store.select_messages (Store.set_updated_at (now_at E (st_ticks s)) sid d1) sid)
                E
                (mkState (Store.set_updated_at (now_at E (st_ticks s)) sid d1)
                   (st_redis s) (S (st_ticks s)) (S (st_uuids s))
                   ((st_commits s ++ [d1]) ++ [Store.set_updated_at (now_at E (st_ticks s)) sid d1])
                   (st_calls s))) as Hfr.
  rewrite Hgen in Hfr. simpl in Hfr. destruct Hfr as (Hdb5 & Ht5 & Hu5 & _).
  (* second addMessage *)
  apply bind_ok in H as (m2 & s6 & Ha2 & H).
  rewrite addMessage_eval in Ha2. cbv zeta in Ha2.
  rewrite Hdb5, find_conversation_set in Ha2.
  assert (Hf1 : Store.find_conversation d1 sid = Some c).
  { subst d1. rewrite <- Hf. destruct (st_db s). reflexivity. }
  rewrite Hf1 in Ha2. simpl in Ha2.
  destruct (Store.insert_message _ (Store.set_updated_at _ sid d1)) as [d3|] eqn:Hi2;
    [|discriminate].
  apply insert_message_some in Hi2.
  inversion Ha2; subst m2 s6; clear Ha2.
  unfold ret in H. inversion H; subst rep sid' s'; clear H.
  split; [reflexivity|].
  destruct (find_conversation_in _ _ _ Hf) as [_ Hcid].
  exists (mkMessage (uuid_gen E (st_uuids s)) sid User message (now_at E (st_ticks s))),
         (mkMessage (uuid_gen E (st_uuids s5)) sid Ai reply (now_at E (st_ticks s5))), c.
  cbn [msg_sender msg_text msg_timestamp st_db].
  split; [|split; [reflexivity|split; [reflexivity|split; [reflexivity|split; [reflexivity|]]]]].
  - rewrite messages_of_set, Hi2. unfold Store.messages_of. simpl.
    rewrite Hi1. simpl.
    rewrite !filter_app. simpl. rewrite String.eqb_refl. simpl.
    rewrite <- app_assoc. reflexivity.
  - split; [reflexivity|].
    rewrite find_conversation_set, Hi2.
    rewrite (find_conversation_msgs _ _
               (messages (Store.set_updated_at (now_at E (st_ticks s)) sid d1))).
    change (Store.find_conversation
              (mkDB (conversations (Store.set_updated_at (now_at E (st_ticks s)) sid d1))
                    (messages (Store.set_updated_at (now_at E (st_ticks s)) sid d1))) sid)
      with (Store.find_conversation (Store.set_updated_at (now_at E (st_ticks s)) sid d1) sid).
    rewrite find_conversation_set, Hf1. simpl.
    rewrite Hcid, String.eqb_refl. simpl. rewrite String.eqb_refl. reflexivity.
Qed.

(** Witness of [turn_appends_user_then_agent]: a turn on the stored
    conversation of [Demo.conv_state]. *)
Lemma turn_appends_user_then_agent_witness :
  let E := Demo.env Demo.ticking "Sure!" in
  let b := Chat.mkBody (Some "Hi") (Some (Demo.demo_uuid 0)) in
  let s' := snd (Chat.post_message b E Demo.conv_state) in
  Chat.post_message b E Demo.conv_state = (Ok (Chat.R200 "Sure!" (Demo.demo_uuid 0)), s') /\
  Store.find_conversation (st_db Demo.conv_state) (Demo.demo_uuid 0) <> None /\
  Demo.demo_uuid 0 = Demo.demo_uuid 0.
Proof.
  intros E b s'.
  assert (Hrun : Chat.post_message b E Demo.conv_state
                 = (Ok (Chat.R200 "Sure!" (Demo.demo_uuid 0)), s'))
    by (vm_compute; reflexivity).
  assert (Hex : Store.find_conversation (st_db Demo.conv_state) (Demo.demo_uuid 0) <> None)
    by (vm_compute; discriminate).
  split; [exact Hrun|]. split; [exact Hex|].
  exact (proj1 (turn_appends_user_then_agent "Hi" (Demo.demo_uuid 0) E Demo.conv_state
                  "Sure!" (Demo.demo_uuid 0) s' Hrun Hex)).
Defined.

(** C4 (as the spec states it) fails: timestamps have a resolution of one
    second, so a turn in the same second as the conversation's last
    write leaves [updated_at] where it was. *)
Lemma turn_updated_at_not_increasing :
  let E := Demo.env Demo.frozen "Sure!" in
  let b := Chat.mkBody (Some "Hi") (Some (Demo.demo_uuid 0)) in
  let res := Chat.post_message b E Demo.conv_state in
  fst res = Ok (Chat.R200 "Sure!" (Demo.demo_uuid 0)) /\
  Store.find_conversation (st_db Demo.conv_state) (Demo.demo_uuid 0)
    = Some (mkConversation (Demo.demo_uuid 0) 1700000000 1700000000) /\
  option_map updated_at (Store.find_conversation (st_db (snd res)) (Demo.demo_uuid 0))
    = Some 1700000000.
Proof. vm_compute. repeat split. Qed.

(** ** C1, C2: the first turn as the handler runs it *)

(** C1. Two first-turn requests in two new conversations whose texts agree
    after lowercasing and trimming (so map to the same cache key): the
    handler appends the user message before reading the history, so
    [generateReply] always receives a non-empty history, never consults
    nor fills the cache, and the provider is called twice. *)
Theorem first_turns_bypass_cache :
  let E := Demo.env Demo.ticking "We accept returns within 30 days." in
  let res := Chat.post_all [Chat.mkBody (Some "Return policy?") None;
                            Chat.mkBody (Some "return policy? ") None] E Demo.state0 in
  Cache.getCacheKey E "Return policy?" = Cache.getCacheKey E "return policy? " /\
  fst res = Ok [Chat.R200 "We accept returns within 30 days." (Demo.demo_uuid 0);
                Chat.R200 "We accept returns within 30 days." (Demo.demo_uuid 3)] /\
  length (st_calls (snd res)) = 2%nat /\
  st_redis (snd res) = Some [].
Proof. vm_compute. repeat split. Qed.

(** C2. On a first turn the history handed to the provider already holds
    the just-appended user message, and the branch appends the message
    again: the prompt carries the current message twice. *)
Theorem first_turn_prompt_repeats_message :
  let E := Demo.env Demo.ticking "We accept returns within 30 days." in
  let res := Chat.post_message (Chat.mkBody (Some "Return policy?") None) E Demo.state0 in
  st_calls (snd res)
  = [CallChat "https://api.openai.com/v1"
       (mkChatRequest "gpt-3.5-turbo"
          [mkParam "system" LLM.STORE_KNOWLEDGE;
           mkParam "user" "Return policy?";
           mkParam "user" "Return policy?"] 200 7)].
Proof. vm_compute. reflexivity. Qed.

(** ** C3: validation *)

(** Empty or over-long text is rejected with 400 before any effect. *)
Lemma empty_or_overlong_rejected msg sess E s :
  (String.length msg = 0 \/ 5000 < String.length msg)%nat ->
  Chat.post_message (Chat.mkBody (Some msg) sess) E s = (Ok Chat.R400, s).
Proof.
  intros Hlen.
  assert (Hb : ((1 <=? String.length msg)%nat && (String.length msg <=? 5000)%nat) = false).
  { destruct Hlen as [H | H].
    - rewrite H. reflexivity.
    - apply andb_false_intro2. apply Nat.leb_gt. exact H. }
  unfold Chat.post_message, Chat.messageSchema_parse, try_catch, bind.
  cbn [Chat.body_message]. rewrite Hb. reflexivity.
Qed.

(** C3. The schema checks the length of the raw text only: a message of
    three spaces (empty after trimming) is accepted, a conversation is
    created and both the user message and the reply are persisted. *)
Theorem whitespace_message_accepted :
  let E := Demo.env Demo.ticking "How can I help you today?" in
  let res := Chat.post_message (Chat.mkBody (Some "   ") None) E Demo.state0 in
  JS.trim "   " = "" /\
  fst res = Ok (Chat.R200 "How can I help you today?" (Demo.demo_uuid 0)) /\
  length (conversations (st_db (snd res))) = 1%nat /\
  map msg_text (messages (st_db (snd res))) = ["   "; "How can I help you today?"].
Proof. vm_compute. repeat split. Qed.

(* ================================================================== *)
(** * Further properties of the code *)

(** ** [getMessages]: ordering *)

Lemma filter_insert_by_ts t m l :
  filter (fun x => msg_timestamp x =? t) (Store.insert_by_ts m l)
  = filter (fun x => msg_timestamp x =? t) (m :: l).
Proof.
  induction l as [|m' l IH]; simpl; [reflexivity|].
  destruct (msg_timestamp m <=? msg_timestamp m') eqn:Hle; [reflexivity|].
  simpl. rewrite IH. simpl.
  destruct (msg_timestamp m =? t) eqn:E1, (msg_timestamp m' =? t) eqn:E2; try reflexivity.
  apply Z.eqb_eq in E1, E2. apply Z.leb_gt in Hle. lia.
Qed.

Lemma filter_sort_by_ts t l :
  filter (fun x => msg_timestamp x =? t) (Store.sort_by_ts l)
  = filter (fun x => msg_timestamp x =? t) l.
Proof.
  induction l as [|m l IH]; simpl; [reflexivity|].
  rewrite filter_insert_by_ts. simpl. rewrite IH. reflexivity.
Qed.

Definition ts_le (a b : Message) : Prop := msg_timestamp a <= msg_timestamp b.

Lemma insert_by_ts_sorted m l :
  Sorted ts_le l -> Sorted ts_le (Store.insert_by_ts m l).
Proof.
  induction l as [|m' l IH]; intros H; simpl.
  - repeat constructor.
  - destruct (msg_timestamp m <=? msg_timestamp m') eqn:Hle.
    + constructor; [exact H|]. constructor. unfold ts_le. lia.
    + apply Z.leb_gt in Hle. inversion H as [|? ? Hs Hhd]; subst.
      constructor; [apply IH, Hs|].
      destruct l as [|b l']; simpl.
      * constructor. unfold ts_le. lia.
      * destruct (msg_timestamp m <=? msg_timestamp b); constructor;
          [unfold ts_le; lia | inversion Hhd; assumption].
Qed.

Lemma sort_by_ts_sorted l : Sorted ts_le (Store.sort_by_ts l).
Proof. induction l; simpl; [constructor | apply insert_by_ts_sorted; assumption]. Qed.

Lemma insert_by_ts_perm m l : Permutation (Store.insert_by_ts m l) (m :: l).
Proof.
  induction l as [|m' l IH]; simpl; [reflexivity|].
  destruct (msg_timestamp m <=? msg_timestamp m'); [reflexivity|].
  rewrite IH. apply perm_swap.
Qed.

Lemma sort_by_ts_perm l : Permutation (Store.sort_by_ts l) l.
Proof.
  induction l as [|m l IH]; simpl; [reflexivity|].
  rewrite insert_by_ts_perm. apply perm_skip, IH.
Qed.

(** [getMessages(conversationId)] reads without writing and returns
    exactly the conversation's stored messages, in non-decreasing
    timestamp order, messages with the same timestamp (same second)
    in the order they were inserted. *)
Theorem getMessages_sorted_stable cid E s :
  Store.getMessages cid E s = (Ok (Store.select_messages (st_db s) cid), s) /\
  let ms := Store.select_messages (st_db s) cid in
  let rows := Store.messages_of (st_db s) cid in
  Sorted ts_le ms /\ Permutation ms rows /\
  (forall t, filter (fun m => msg_timestamp m =? t) ms
             = filter (fun m => msg_timestamp m =? t) rows).
Proof.
  split; [reflexivity|]. cbv zeta. unfold Store.select_messages.
  split; [apply sort_by_ts_sorted|]. split; [apply sort_by_ts_perm|].
  intros t. apply filter_sort_by_ts.
Qed.

(** ** [addMessage]: other conversations are untouched *)

Lemma messages_of_app_other d ms m x :
  msg_conversation_id m <> x ->
  Store.messages_of (mkDB d (ms ++ [m])) x = Store.messages_of (mkDB d ms) x.
Proof.
  intros Hne. unfold Store.messages_of. simpl. rewrite filter_app. simpl.
  destruct (String.eqb (msg_conversation_id m) x) eqn:He.
  - apply String.eqb_eq in He. contradiction.
  - apply app_nil_r.
Qed.

(** [addMessage(conversationId, ...)] never changes another conversation:
    whatever its outcome, every other id resolves to the same row and
    has the same messages as before. *)
Theorem addMessage_isolated cid sd txt E s r s' other :
  Store.addMessage cid sd txt E s = (r, s') -> other <> cid ->
  Store.find_conversation (st_db s') other = Store.find_conversation (st_db s) other /\
  Store.messages_of (st_db s') other = Store.messages_of (st_db s) other.
Proof.
  rewrite addMessage_eval. cbv zeta. intros H Hne.
  destruct (Store.find_conversation (st_db s) cid) as [c|] eqn:Hc;
    [|inversion H; subst; auto].
  destruct (Store.insert_message _ (st_db s)) as [d1|] eqn:Hi;
    [|inversion H; subst; auto].
  inversion H; subst; clear H. simpl.
  apply insert_message_some in Hi. subst d1.
  split.
  - rewrite find_conversation_set. simpl.
    destruct (st_db s) as [cs ms]. simpl.
    rewrite <- (find_conversation_msgs cs ms (ms ++ _)).
    destruct (Store.find_conversation (mkDB cs ms) other) as [c'|] eqn:Hf; [|reflexivity].
    simpl. apply find_conversation_in in Hf as [_ Hid]. subst other.
    destruct (String.eqb (conv_id c') cid) eqn:He; [|reflexivity].
    apply String.eqb_eq in He. contradiction.
  - rewrite messages_of_set. destruct (st_db s) as [cs ms].
    apply messages_of_app_other. simpl. auto.
Qed.

(** ** [createConversation]: a new conversation is empty *)

(** With the foreign key holding, [createConversation()], when it
    succeeds, returns an id no row had before, stores that conversation
    with [created_at = updated_at =] the clock in whole seconds, leaves
    the messages table unchanged, and the new conversation has no
    messages. *)
Theorem createConversation_new_empty E s id s' :
  fk_ok (st_db s) -> Store.createConversation E s = (Ok id, s') ->
  Store.find_conversation (st_db s) id = None /\
  Store.find_conversation (st_db s') id
    = Some (mkConversation id (now_at E (st_ticks s)) (now_at E (st_ticks s))) /\
  messages (st_db s') = messages (st_db s) /\
  Store.select_messages (st_db s') id = [].
Proof.
  intros Hfk. rewrite createConversation_eval. cbv zeta.
  destruct (Store.insert_conversation _ (st_db s)) as [d|] eqn:Hi; [|discriminate].
  intros H; inversion H; subst; clear H. simpl.
  assert (Hnone : Store.find_conversation (st_db s) (uuid_gen E (st_uuids s)) = None).
  { unfold Store.insert_conversation in Hi. simpl in Hi.
    destruct (Store.find_conversation _ _); [discriminate | reflexivity]. }
  apply insert_conversation_some in Hi. subst d.
  split; [exact Hnone|].
  split.
  - destruct (st_db s) as [cs ms]. rewrite find_conversation_app. simpl in *.
    rewrite Hnone. unfold Store.find_conversation. simpl. rewrite String.eqb_refl. reflexivity.
  - split; [reflexivity|].
    unfold Store.select_messages, Store.messages_of. simpl.
    rewrite filter_all_false; [reflexivity|].
    intros m Hm. destruct (String.eqb _ _) eqn:He; [|reflexivity].
    apply String.eqb_eq in He. exfalso. apply (Hfk m Hm). rewrite He. exact Hnone.
Qed.

(** ** Cache keys: case and surrounding whitespace are ignored *)

(** Every character of [w] is removed by [trim]. *)
Definition all_ws (w : string) : Prop := forallb JS.is_ws (list_ascii_of_string w) = true.

Lemma list_ascii_of_string_app (a b : string) :
  list_ascii_of_string (a ++ b) = (list_ascii_of_string a ++ list_ascii_of_string b)%list.
Proof. induction a as [|c a IH]; simpl; [reflexivity | rewrite IH; reflexivity]. Qed.

Lemma toLowerCase_app (a b : string) :
  JS.toLowerCase (a ++ b) = (JS.toLowerCase a ++ JS.toLowerCase b)%string.
Proof. induction a as [|c a IH]; simpl; [reflexivity | rewrite IH; reflexivity]. Qed.

Lemma lower_char_ws c : JS.is_ws c = true -> JS.lower_char c = c.
Proof. destruct c as [[] [] [] [] [] [] [] []]; vm_compute; congruence. Qed.

Lemma lower_char_idem c : JS.lower_char (JS.lower_char c) = JS.lower_char c.
Proof. destruct c as [[] [] [] [] [] [] [] []]; vm_compute; reflexivity. Qed.

Lemma toLowerCase_ws w : all_ws w -> JS.toLowerCase w = w.
Proof.
  unfold all_ws. induction w as [|c w IH]; simpl; [reflexivity|].
  intros H. apply andb_true_iff in H as [Hc Hw].
  rewrite lower_char_ws, IH; auto.
Qed.

Lemma toLowerCase_idem s : JS.toLowerCase (JS.toLowerCase s) = JS.toLowerCase s.
Proof. induction s as [|c s IH]; simpl; [reflexivity | rewrite lower_char_idem, IH; reflexivity]. Qed.

Lemma drop_ws_app (a b : list ascii) :
  JS.drop_ws (a ++ b) = match JS.drop_ws a with [] => JS.drop_ws b | a' => (a' ++ b)%list end.
Proof.
  induction a as [|c a IH]; simpl; [reflexivity|].
  destruct (JS.is_ws c); [exact IH | reflexivity].
Qed.

Lemma drop_ws_all (l : list ascii) : forallb JS.is_ws l = true -> JS.drop_ws l = [].
Proof.
  induction l as [|c l IH]; simpl; [reflexivity|].
  intros H. apply andb_true_iff in H as [Hc Hl]. rewrite Hc. apply IH, Hl.
Qed.

Lemma forallb_rev {A} (f : A -> bool) (l : list A) : forallb f (rev l) = forallb f l.
Proof.
  induction l as [|x l IH]; simpl; [reflexivity|].
  rewrite forallb_app, IH. simpl. rewrite andb_true_r, andb_comm. reflexivity.
Qed.

Lemma trim_padded w1 x w2 :
  all_ws w1 -> all_ws w2 -> JS.trim (w1 ++ x ++ w2) = JS.trim x.
Proof.
  unfold all_ws, JS.trim. intros H1 H2.
  rewrite !list_ascii_of_string_app.
  set (l1 := list_ascii_of_string w1) in *. set (lx := list_ascii_of_string x).
  set (l2 := list_ascii_of_string w2) in *.
  rewrite drop_ws_app, (drop_ws_all l1 H1), drop_ws_app.
  destruct (JS.drop_ws lx) as [|c r] eqn:Hx.
  - rewrite (drop_ws_all l2 H2). reflexivity.
  - rewrite rev_app_distr, drop_ws_app.
    rewrite (drop_ws_all (rev l2)) by (rewrite forallb_rev; exact H2).
    reflexivity.
Qed.

(** The cache key of a message does not change when the message is
    lower-cased or padded with whitespace at either end: ["Return policy?"]
    and [" RETURN POLICY?  "] share their key. *)
Theorem getCacheKey_normalizes E w1 x w2 :
  all_ws w1 -> all_ws w2 ->
  Cache.getCacheKey E (w1 ++ x ++ w2) = Cache.getCacheKey E x /\
  Cache.getCacheKey E (JS.toLowerCase x) = Cache.getCacheKey E x.
Proof.
  intros H1 H2. unfold Cache.getCacheKey. split.
  - rewrite !toLowerCase_app, (toLowerCase_ws w1 H1), (toLowerCase_ws w2 H2).
    rewrite trim_padded by assumption. reflexivity.
  - rewrite toLowerCase_idem. reflexivity.
Qed.

(** ** [generateReply] and the cache *)

(** A computation that neither reads nor writes Redis. *)
Definition redis_transparent {A} (m : M A) : Prop :=
  forall E s r,
    m E (set_redis s r) = (fst (m E s), set_redis (snd (m E s)) r) /\
    st_redis (snd (m E s)) = st_redis s.

Lemma rt_ret {A} (a : A) : redis_transparent (ret a).
Proof. intros E s r. split; reflexivity. Qed.

Lemma rt_throw {A} e : redis_transparent (A := A) (throw e).
Proof. intros E s r. split; reflexivity. Qed.

Lemma rt_bind {A B} (m : M A) (k : A -> M B) :
  redis_transparent m -> (forall a, redis_transparent (k a)) ->
  redis_transparent (bind m k).
Proof.
  intros Hm Hk E s r. unfold bind. destruct (Hm E s r) as [H1 H2].
  rewrite H1. destruct (m E s) as [[a|e] s1]; simpl in *.
  - destruct (Hk a E s1 r) as [K1 K2]. rewrite K1. split; [reflexivity | congruence].
  - split; [reflexivity | exact H2].
Qed.

Lemma rt_try_catch {A} (m : M A) h :
  redis_transparent m -> (forall e, redis_transparent (h e)) ->
  redis_transparent (try_catch m h).
Proof.
  intros Hm Hh E s r. unfold try_catch. destruct (Hm E s r) as [H1 H2].
  rewrite H1. destruct (m E s) as [[a|e] s1]; simpl in *.
  - split; [reflexivity | exact H2].
  - destruct (Hh e E s1 r) as [K1 K2]. rewrite K1. split; [reflexivity | congruence].
Qed.

Lemma rt_process_env name : redis_transparent (process_env name).
Proof. intros E s r. split; reflexivity. Qed.

Lemma rt_get_env : redis_transparent get_env.
Proof. intros E s r. split; reflexivity. Qed.

Lemma rt_log_call c : redis_transparent (log_call c).
Proof. intros E s r. destruct s. split; reflexivity. Qed.

Lemma rt_handleError {A} e p : redis_transparent (A := A) (LLM.handleError e p).
Proof. destruct e; apply rt_throw. Qed.

Create HintDb rt.
#[local] Hint Resolve rt_ret rt_throw rt_process_env rt_get_env rt_log_call
  rt_handleError : rt.

Ltac rt_tac :=
  repeat match goal with
         | |- redis_transparent (bind _ _) => apply rt_bind; [|intro]
         | |- redis_transparent (try_catch _ _) => apply rt_try_catch; [|intro]
         | |- redis_transparent (if ?b then _ else _) => destruct b
         | |- redis_transparent (match ?x with _ => _ end) => destruct x
         | |- redis_transparent _ => solve [eauto with rt]
         end.

Lemma rt_call_chat u r : redis_transparent (LLM.call_chat u r).
Proof. unfold LLM.call_chat. rt_tac. Qed.

Lemma rt_call_gemini r : redis_transparent (LLM.call_gemini r).
Proof. unfold LLM.call_gemini. rt_tac. Qed.

Lemma rt_check_reply c p : redis_transparent (LLM.check_reply c p).
Proof. unfold LLM.check_reply. rt_tac. Qed.

#[local] Hint Resolve rt_call_chat rt_call_gemini rt_check_reply : rt.

Lemma rt_generateWith p u h : redis_transparent (LLM.generateWith p u h).
Proof.
  destruct p; simpl;
    [unfold LLM.generateWithOpenAI | unfold LLM.generateWithGroq
    | unfold LLM.generateWithGemini]; rt_tac.
Qed.

Lemma rt_getProvider : redis_transparent LLM.getProvider.
Proof. unfold LLM.getProvider. rt_tac. Qed.

Lemma getProvider_pure E s : exists p, LLM.getProvider E s = (Ok p, s).
Proof.
  unfold LLM.getProvider, bind, process_env. simpl.
  repeat match goal with |- context [if ?b then _ else _] => destruct b end;
    eexists; reflexivity.
Qed.

(** With a non-empty history, [generateReply] neither reads nor writes
    the cache: its result and every other effect are the same whatever
    Redis holds (or whether it is connected), and Redis is left as it was. *)
Theorem generateReply_history_ignores_cache u h E s r :
  h <> [] ->
  LLM.generateReply u h E (set_redis s r)
  = (fst (LLM.generateReply u h E s), set_redis (snd (LLM.generateReply u h E s)) r) /\
  st_redis (snd (LLM.generateReply u h E s)) = st_redis s.
Proof.
  intros Hh. unfold LLM.generateReply.
  destruct h as [|m h]; [contradiction|]. simpl.
  assert (Ht : redis_transparent
                 (provider <- LLM.getProvider ;;
                  reply <- LLM.generateWith provider u (m :: h) ;;
                  ret tt ;;; ret reply)).
  { apply rt_bind; [apply rt_getProvider | intros p].
    apply rt_bind; [apply rt_generateWith | intros a]. rt_tac. }
  apply Ht.
Qed.

(** On an empty history, a non-empty cached reply under the message's
    key is returned as is: no provider is called and nothing changes. *)
Theorem generateReply_cache_hit u E s kv c :
  st_redis s = Some kv -> Cache.redis_lookup kv (Cache.getCacheKey E u) = Some c ->
  c <> "" ->
  LLM.generateReply u [] E s = (Ok c, s).
Proof.
  intros Hr Hl Hc. unfold LLM.generateReply. simpl.
  unfold bind at 1, Cache.get. rewrite Hr, Hl.
  destruct c as [|a c]; [contradiction | reflexivity].
Qed.

(** ** Provider selection and API-key checks *)

Lemma truthy_app (a b : string) : JS.truthy (a ++ b) = JS.truthy a || JS.truthy b.
Proof. destruct a; reflexivity. Qed.

(** [LLM_PROVIDER] is compared after lower-casing and trimming: any
    whitespace padding and any upper/lower-case spelling of [groq] or
    [gemini] selects that provider, with no change of state. *)
Theorem getProvider_case_padding E s w1 x w2 :
  all_ws w1 -> all_ws w2 ->
  process_env "LLM_PROVIDER" E s = (Ok (Some (w1 ++ x ++ w2)), s) ->
  (JS.toLowerCase x = "groq" -> LLM.getProvider E s = (Ok LLM.Groq, s)) /\
  (JS.toLowerCase x = "gemini" -> LLM.getProvider E s = (Ok LLM.Gemini, s)).
Proof.
  intros H1 H2 Hv.
  assert (Hn : JS.trim (JS.toLowerCase (w1 ++ x ++ w2)) = JS.trim (JS.toLowerCase x)).
  { rewrite !toLowerCase_app, (toLowerCase_ws w1 H1), (toLowerCase_ws w2 H2).
    apply trim_padded; assumption. }
  assert (Ht : forall c r, JS.toLowerCase x = String c r ->
                           JS.truthy (w1 ++ x ++ w2) = true).
  { intros c r Hx. rewrite truthy_app, truthy_app.
    destruct x; [discriminate | simpl; apply orb_true_r]. }
  split; intros Hx; unfold LLM.getProvider, bind; rewrite Hv; cbv beta iota;
    rewrite (Ht _ _ Hx), Hn, Hx; reflexivity.
Qed.

Lemma check_reply_state c p E s : snd (LLM.check_reply c p E s) = s.
Proof.
  unfold LLM.check_reply. destruct (option_map JS.trim c); [|reflexivity].
  destruct (JS.truthy s0); reflexivity.
Qed.

Lemma handleError_state {A} e p E s : snd (LLM.handleError (A := A) e p E s) = s.
Proof. destruct e; reflexivity. Qed.

(** Evaluate a [check_reply] and a [handleError] that follow a provider call. *)
Ltac reply_state_tac :=
  repeat match goal with
         | |- context [LLM.check_reply ?a ?p ?E ?s] =>
             let r := fresh "r" in let e := fresh "e" in let s1 := fresh "s" in
             let Hc := fresh "Hc" in let Hs := fresh "Hs" in
             destruct (LLM.check_reply a p E s) as [[r|e] s1] eqn:Hc;
             pose proof (check_reply_state a p E s) as Hs;
             rewrite Hc in Hs; simpl in Hs; subst s1; simpl
         | |- context [snd (LLM.handleError ?e ?p ?E ?s)] => rewrite handleError_state
         end.

Lemma call_chat_then_check_calls url req p E s :
  st_calls (snd (try_catch (content <- LLM.call_chat url req ;; LLM.check_reply content p)
                           (fun e => LLM.handleError e p) E s))
  = (st_calls s ++ [CallChat url req])%list.
Proof.
  unfold try_catch, LLM.call_chat, log_call, get_env, bind, ret, throw.
  destruct (chat_backend E url req) as [a|e]; simpl; reply_state_tac; reflexivity.
Qed.

Lemma env_call_chat_then_check_calls name f req p E s :
  st_calls (snd (try_catch (b <- process_env name ;;
                            content <- LLM.call_chat (f b) req ;; LLM.check_reply content p)
                           (fun e => LLM.handleError e p) E s))
  = (st_calls s ++ [CallChat (f (option_map snd (find (fun kv => String.eqb (fst kv) name)
                                                    (env_vars E)))) req])%list.
Proof.
  unfold try_catch, process_env, LLM.call_chat, log_call, get_env, bind, ret, throw.
  destruct (chat_backend E _ req) as [a|e]; simpl; reply_state_tac; reflexivity.
Qed.

Lemma drop_ws_nil l : JS.drop_ws l = [] -> forallb JS.is_ws l = true.
Proof.
  induction l as [|c l IH]; simpl; [reflexivity|].
  destruct (JS.is_ws c) eqn:Hc; [exact IH | discriminate].
Qed.

Lemma startsWith_trim_nonempty k pre c r :
  pre = String c r -> JS.is_ws c = false ->
  JS.startsWith k pre = true -> String.eqb (JS.trim k) "" = false.
Proof.
  intros -> Hc Hs. unfold JS.startsWith in Hs.
  destruct k as [|c' k]; [discriminate|].
  simpl in Hs. destruct (ascii_dec c c') as [<-|]; [|discriminate].
  unfold JS.trim. simpl. rewrite Hc.
  destruct (rev (JS.drop_ws (rev (c :: list_ascii_of_string k)))) as [|d l] eqn:He;
    [|reflexivity].
  exfalso. apply (f_equal (@rev ascii)) in He. rewrite rev_involutive in He.
  simpl in He. apply drop_ws_nil in He. rewrite forallb_app in He. simpl in He.
  rewrite Hc, andb_false_r in He. discriminate.
Qed.

(** The OpenAI and Groq branches accept their API key exactly when it is
    set and starts with ["sk-"] (OpenAI) or ["gsk_"] (Groq): a missing,
    blank or placeholder key throws the configuration error, outside the
    [try] (so not rewritten by [handleError]), before any provider call
    and with no change of state; an accepted key leads to exactly one
    SDK invocation ([chat.completions.create]) with the assembled request,
    logged with the client's base URL (for OpenAI the trimmed
    [OPENAI_BASE_URL] if set and non-empty, else the default; for Groq the
    fixed Groq URL), whatever its answer. Retries made inside the SDK are
    part of that one invocation. *)
Theorem openai_groq_key_gate u h E s :
  let key name := option_map snd (find (fun kv => String.eqb (fst kv) name) (env_vars E)) in
  match key "OPENAI_API_KEY" with
  | Some k =>
      if JS.startsWith k "sk-"
      then st_calls (snd (LLM.generateWithOpenAI u h E s))
           = (st_calls s ++ [CallChat (LLM.openai_baseURL (key "OPENAI_BASE_URL"))
                               (mkChatRequest "gpt-3.5-turbo" (LLM.chat_messages u h)
                                              LLM.maxTokens 7)])%list
      else LLM.generateWithOpenAI u h E s
           = (Err (Thrown (new_Error "OpenAI API key not configured. Please set a valid OPENAI_API_KEY in backend/.env file. Get your key at https://platform.openai.com/api-keys")), s)
  | None => LLM.generateWithOpenAI u h E s
            = (Err (Thrown (new_Error "OpenAI API key not configured. Please set a valid OPENAI_API_KEY in backend/.env file. Get your key at https://platform.openai.com/api-keys")), s)
  end /\
  match key "GROQ_API_KEY" with
  | Some k =>
      if JS.startsWith k "gsk_"
      then st_calls (snd (LLM.generateWithGroq u h E s))
           = (st_calls s ++ [CallChat "https://api.groq.com/openai/v1"
                               (mkChatRequest "llama-3.1-8b-instant" (LLM.chat_messages u h)
                                              LLM.maxTokens 7)])%list
      else LLM.generateWithGroq u h E s
           = (Err (Thrown (new_Error "Groq API key not configured. Please set a valid GROQ_API_KEY in backend/.env file. Get free key at https://console.groq.com/keys")), s)
  | None => LLM.generateWithGroq u h E s
            = (Err (Thrown (new_Error "Groq API key not configured. Please set a valid GROQ_API_KEY in backend/.env file. Get free key at https://console.groq.com/keys")), s)
  end.
Proof.
  cbv zeta. split.
  - destruct (option_map snd (find _ (env_vars E))) as [k|] eqn:Hk;
      [destruct (JS.startsWith k "sk-") eqn:Hs|];
      unfold LLM.generateWithOpenAI; unfold bind at 1; unfold process_env at 1;
      cbv beta iota; rewrite Hk.
    + rewrite (startsWith_trim_nonempty k "sk-" "s" "k-") by (reflexivity || assumption).
      assert (Hp : String.eqb k "your_openai_api_key_here" = false).
      { destruct (String.eqb k _) eqn:He; [|reflexivity].
        apply String.eqb_eq in He. subst k. discriminate. }
      assert (Htr : JS.truthy k = true) by (destruct k; [discriminate | reflexivity]).
      rewrite Hp, Htr, Hs. simpl. apply (env_call_chat_then_check_calls _ LLM.openai_baseURL).
    + rewrite Hs, !andb_false_r. reflexivity.
    + reflexivity.
  - destruct (option_map snd (find _ (env_vars E))) as [k|] eqn:Hk;
      [destruct (JS.startsWith k "gsk_") eqn:Hs|];
      unfold LLM.generateWithGroq; unfold bind at 1; unfold process_env at 1;
      cbv beta iota; rewrite Hk.
    + rewrite (startsWith_trim_nonempty k "gsk_" "g" "sk_") by (reflexivity || assumption).
      assert (Hp : String.eqb k "your_groq_api_key_here" = false).
      { destruct (String.eqb k _) eqn:He; [|reflexivity].
        apply String.eqb_eq in He. subst k. discriminate. }
      assert (Htr : JS.truthy k = true) by (destruct k; [discriminate | reflexivity]).
      rewrite Hp, Htr, Hs. simpl. apply call_chat_then_check_calls.
    + rewrite Hs, !orb_true_r. reflexivity.
    + reflexivity.
Qed.

(** The Gemini branch only rejects a missing, empty or placeholder key:
    any other value, including a whitespace-only key (which the OpenAI
    and Groq checks reject), leads to exactly one call to the Gemini
    backend with the assembled prompt. *)
Theorem gemini_key_not_trimmed u h E s k :
  option_map snd (find (fun kv => String.eqb (fst kv) "GEMINI_API_KEY") (env_vars E)) = Some k ->
  k <> "" -> k <> "your_gemini_api_key_here" ->
  st_calls (snd (LLM.generateWithGemini u h E s))
  = (st_calls s ++ [CallGemini (mkGeminiRequest "gemini-pro" LLM.maxTokens 7
                                  (LLM.gemini_prompt u h))])%list.
Proof.
  intros Hk Hne Hph. unfold LLM.generateWithGemini, bind at 1, process_env.
  cbv beta iota. rewrite Hk.
  assert (Htr : JS.truthy k = true) by (destruct k; [contradiction | reflexivity]).
  assert (Hp : String.eqb k "your_gemini_api_key_here" = false)
    by (apply String.eqb_neq; exact Hph).
  rewrite Htr, Hp. simpl.
  unfold try_catch, LLM.call_gemini, log_call, get_env, bind, ret, throw.
  destruct (gemini_backend E _) as [a|e]; simpl; reply_state_tac; reflexivity.
Qed.

(** ** [POST /message]: validation, failures, new conversations *)

Lemma parse_cases b E s :
  Chat.messageSchema_parse b E s = (Err ZodError, s) \/
  exists m, Chat.body_message b = Some m /\
            Chat.messageSchema_parse b E s = (Ok (m, Chat.body_sessionId b), s).
Proof.
  unfold Chat.messageSchema_parse.
  destruct (Chat.body_message b) as [m|]; [|left; reflexivity].
  destruct (negb _); [left; reflexivity|].
  destruct (Chat.body_sessionId b) as [sid|]; [|right; eauto].
  destruct (Chat.is_uuid sid); [right; eauto | left; reflexivity].
Qed.

Lemma post_message_parse_err b E s :
  Chat.messageSchema_parse b E s = (Err ZodError, s) ->
  Chat.post_message b E s = (Ok Chat.R400, s).
Proof.
  intros Hp. unfold Chat.post_message, try_catch. unfold bind at 1. rewrite Hp. reflexivity.
Qed.

(** [POST /message] validates the whole body before any effect: a
    missing message, a message of length 0 or above 5000, or a
    [sessionId] that is not a UUID is answered with 400 and changes no
    state (no conversation, no message, no clock or id reading, no
    provider call). *)
Theorem invalid_body_no_effect b E s :
  (Chat.body_message b = None \/
   (exists m, Chat.body_message b = Some m /\
              (String.length m = 0 \/ 5000 < String.length m)%nat) \/
   (exists sid, Chat.body_sessionId b = Some sid /\ Chat.is_uuid sid = false)) ->
  Chat.post_message b E s = (Ok Chat.R400, s).
Proof.
  intros Hinv. apply post_message_parse_err.
  unfold Chat.messageSchema_parse.
  destruct Hinv as [Hn | [(m & Hm & Hlen) | (sid & Hs & Hu)]].
  - rewrite Hn. reflexivity.
  - rewrite Hm.
    assert (Hb : ((1 <=? String.length m)%nat && (String.length m <=? 5000)%nat) = false).
    { destruct Hlen as [H | H].
      - rewrite H. reflexivity.
      - apply andb_false_intro2. apply Nat.leb_gt. exact H. }
    rewrite Hb. reflexivity.
  - destruct (Chat.body_message b); [|reflexivity].
    destruct (negb _); [reflexivity|]. rewrite Hs, Hu. reflexivity.
Qed.

Lemma insert_message_fresh m d c :
  Store.find_conversation d (msg_conversation_id m) = Some c ->
  ~ In (msg_id m) (map msg_id (messages d)) ->
  Store.insert_message m d = Some (mkDB (conversations d) (messages d ++ [m])).
Proof.
  intros Hf Hn. unfold Store.insert_message.
  rewrite existsb_msg_id_false by exact Hn. rewrite Hf. reflexivity.
Qed.

Lemma messages_of_app_same d ms m x :
  msg_conversation_id m = x ->
  Store.messages_of (mkDB d (ms ++ [m])) x = (Store.messages_of (mkDB d ms) x ++ [m])%list.
Proof.
  intros He. unfold Store.messages_of. simpl. rewrite filter_app. simpl.
  rewrite He, String.eqb_refl. reflexivity.
Qed.

(** A valid request on a stored conversation whose handling fails after
    validation (provider error, missing API key, database error on the
    reply) is answered with 500, yet the user's message, stored before
    the reply was generated, stays in the conversation, with no agent
    message after it. *)
Theorem failed_turn_keeps_user_message message cid E s err s' :
  Store.find_conversation (st_db s) cid <> None ->
  ~ In (uuid_gen E (st_uuids s)) (map msg_id (messages (st_db s))) ->
  Chat.post_message (Chat.mkBody (Some message) (Some cid)) E s = (Ok (Chat.R500 err), s') ->
  Store.messages_of (st_db s') cid
  = (Store.messages_of (st_db s) cid
     ++ [mkMessage (uuid_gen E (st_uuids s)) cid User message (now_at E (st_ticks s))])%list.
Proof.
  intros Hex Hfresh H.
  destruct (parse_cases (Chat.mkBody (Some message) (Some cid)) E s) as [Hp | (m & Hm & Hp)].
  { rewrite (post_message_parse_err _ _ _ Hp) in H. discriminate. }
  cbn [Chat.body_message Chat.body_sessionId] in Hm, Hp. inversion Hm; subst m; clear Hm.
  destruct (Store.find_conversation (st_db s) cid) as [c|] eqn:Hf; [|contradiction].
  set (um := mkMessage (uuid_gen E (st_uuids s)) cid User message (now_at E (st_ticks s))).
  set (d1 := mkDB (conversations (st_db s)) (messages (st_db s) ++ [um])).
  set (d2 := Store.set_updated_at (now_at E (st_ticks s)) cid d1).
  set (s2 := mkState d2 (st_redis s) (S (st_ticks s)) (S (st_uuids s))
                     ((st_commits s ++ [d1]) ++ [d2]) (st_calls s)).
  assert (Ha1 : Store.addMessage cid User message E s = (Ok um, s2)).
  { rewrite addMessage_eval. cbv zeta. rewrite Hf. fold um.
    rewrite (insert_message_fresh um (st_db s) c) by (simpl; assumption). reflexivity. }
  assert (Hdb2 : Store.messages_of d2 cid = (Store.messages_of (st_db s) cid ++ [um])%list).
  { subst d2 d1. rewrite messages_of_set. destruct (st_db s) as [cs ms].
    apply messages_of_app_same. reflexivity. }
  unfold Chat.post_message, try_catch in H.
  unfold bind at 1 in H. rewrite Hp in H. cbv beta iota in H.
  assert (Hr : Chat.resolve_conversation (Some cid) E s = (Ok cid, s)).
  { unfold Chat.resolve_conversation, Store.getConversation, bind, read_db, ret.
    rewrite Hf. reflexivity. }
  unfold bind at 1 in H. rewrite Hr in H. cbv beta iota in H.
  unfold bind at 1 in H. rewrite Ha1 in H. cbv beta iota in H.
  assert (Hgm : Store.getMessages cid E s2 = (Ok (Store.select_messages (st_db s2) cid), s2))
    by reflexivity.
  unfold bind at 1 in H. rewrite Hgm in H. cbv beta iota in H.
  unfold bind at 1 in H.
  set (hist := Store.select_messages (st_db s2) cid) in H.
  pose proof (frame_generateReply message hist E s2) as Hfr.
  destruct (LLM.generateReply message hist E s2) as [[reply|e] s3] eqn:Hg;
    simpl in Hfr; destruct Hfr as (Hdb3 & Ht3 & Hu3 & _).
  - unfold bind at 1 in H. rewrite addMessage_eval in H. cbv zeta in H.
    rewrite Hdb3 in H.
    destruct (Store.find_conversation d2 cid) as [c2|].
    + match type of H with context [Store.insert_message ?m ?d] =>
        destruct (Store.insert_message m d) as [d4|] end; simpl in H.
      * discriminate.
      * inversion H; subst s'. simpl. rewrite Hdb3. exact Hdb2.
    + simpl in H. inversion H; subst s'. simpl. rewrite Hdb3. exact Hdb2.
  - destruct e; simpl in H; inversion H; subst s'. rewrite Hdb3. exact Hdb2.
Qed.

Lemma resolve_new E s sid :
  (sid = None \/ exists x, sid = Some x /\ Store.find_conversation (st_db s) x = None) ->
  Chat.resolve_conversation sid E s = Store.createConversation E s.
Proof.
  intros [-> | (x & -> & Hx)]; [reflexivity|].
  unfold Chat.resolve_conversation, Store.getConversation, bind, read_db, ret.
  rewrite Hx. reflexivity.
Qed.

Lemma find_conversation_kept d x t y ms :
  Store.find_conversation d x <> None ->
  Store.find_conversation (Store.set_updated_at t y (mkDB (conversations d) ms)) x <> None.
Proof.
  intros H. rewrite find_conversation_set.
  replace (Store.find_conversation (mkDB (conversations d) ms) x)
    with (Store.find_conversation d x) by (destruct d; reflexivity).
  destruct (Store.find_conversation d x); [discriminate | contradiction].
Qed.

(** With the foreign key holding and a clock that never goes back, a
    successful [POST /message] without a [sessionId], or with one that
    names no stored conversation, answers with the id of a conversation
    that did not exist before the request, and [GET /history] on that
    id then answers exactly two messages: the user's message with the
    submitted text, then the agent's message with the reply. *)
Theorem new_session_history message sid E s reply sid' s' :
  fk_ok (st_db s) -> Spec.clock_monotone E ->
  (sid = None \/ exists x, sid = Some x /\ Store.find_conversation (st_db s) x = None) ->
  Chat.post_message (Chat.mkBody (Some message) sid) E s = (Ok (Chat.R200 reply sid'), s') ->
  Store.find_conversation (st_db s) sid' = None /\
  exists um am,
    History.get_history sid' E s' = (Ok (History.H200 [um; am]), s') /\
    msg_sender um = User /\ msg_text um = message /\
    msg_sender am = Ai /\ msg_text am = reply.
Proof.
  intros Hfk Hmono Hsid H.
  unfold Chat.post_message in H.
  apply try_catch_ok in H as [H | (e & s1 & _ & H)];
    [| destruct e; simpl in H; discriminate].
  apply bind_ok in H as (parsed & s1 & Hp & H).
  destruct (parse_cases (Chat.mkBody (Some message) sid) E s) as [Hp' | (m & Hm & Hp')];
    rewrite Hp' in Hp; [discriminate|].
  cbn [Chat.body_message Chat.body_sessionId] in Hm, Hp. inversion Hm; subst m; clear Hm.
  inversion Hp; subst parsed s1; clear Hp. cbv beta iota in H.
  (* a new conversation *)
  apply bind_ok in H as (cid & s2 & Hr & H).
  rewrite (resolve_new E s sid Hsid), createConversation_eval in Hr. cbv zeta in Hr.
  destruct (Store.insert_conversation _ (st_db s)) as [d|] eqn:Hi; [|discriminate].
  assert (Hnone : Store.find_conversation (st_db s) (uuid_gen E (st_uuids s)) = None).
  { unfold Store.insert_conversation in Hi. simpl in Hi.
    destruct (Store.find_conversation _ _); [discriminate | reflexivity]. }
  apply insert_conversation_some in Hi. subst d.
  inversion Hr; subst cid s2; clear Hr. simpl in H.
  set (cid := uuid_gen E (st_uuids s)) in *.
  set (t := st_ticks s) in *.
  set (d0 := mkDB (conversations (st_db s) ++ [mkConversation cid (now_at E t) (now_at E t)])
                  (messages (st_db s))) in *.
  assert (Hf0 : Store.find_conversation d0 cid <> None).
  { subst d0. destruct (st_db s) as [cs ms]. rewrite find_conversation_app. simpl in *.
    rewrite Hnone. unfold Store.find_conversation. simpl. rewrite String.eqb_refl. discriminate. }
  assert (Hm0 : Store.messages_of d0 cid = []).
  { unfold Store.messages_of. subst d0. simpl. apply filter_all_false.
    intros m Hm. destruct (String.eqb _ _) eqn:He; [|reflexivity].
    apply String.eqb_eq in He. exfalso. apply (Hfk m Hm). rewrite He. exact Hnone. }
  (* the user's message *)
  apply bind_ok in H as (m1 & s3 & Ha1 & H).
  rewrite addMessage_eval in Ha1. cbv zeta in Ha1. simpl in Ha1.
  destruct (Store.find_conversation d0 cid) as [c0|] eqn:Hf0'; [|contradiction].
  destruct (Store.insert_message _ d0) as [d1|] eqn:Hi1; [|discriminate].
  apply insert_message_some in Hi1. subst d1.
  inversion Ha1; subst m1 s3; clear Ha1.
  (* the history read *)
  apply bind_ok in H as (hist & s4 & Hg & H).
  unfold Store.getMessages, bind, read_db, ret in Hg. inversion Hg; subst hist s4; clear Hg.
  (* the reply *)
  apply bind_ok in H as (rep & s5 & Hgen & H).
  match type of Hgen with LLM.generateReply ?a ?b ?c ?st = _ =>
    pose proof (frame_generateReply a b c st) as Hfr end.
  rewrite Hgen in Hfr. simpl in Hfr. destruct Hfr as (Hdb5 & Ht5 & Hu5 & _).
  set (um1 := mkMessage (uuid_gen E (S (st_uuids s))) cid User message (now_at E (S t))) in *.
  assert (Hf5 : Store.find_conversation (st_db s5) cid <> None).
  { rewrite Hdb5. apply (find_conversation_kept d0). rewrite Hf0'. discriminate. }
  assert (Hm5 : Store.messages_of (st_db s5) cid = [um1]).
  { rewrite Hdb5, messages_of_set, messages_of_app_same by reflexivity.
    change (Store.messages_of d0 cid ++ [um1] = [um1])%list. rewrite Hm0. reflexivity. }
  clear Hdb5.
  apply bind_ok in H as (m2 & s6 & Ha2 & H).
  rewrite addMessage_eval in Ha2. cbv zeta in Ha2. rewrite Ht5, Hu5 in Ha2.
  destruct (Store.find_conversation (st_db s5) cid) as [c1|] eqn:Hf1; [|contradiction].
  match type of Ha2 with context [Store.insert_message ?m ?d] =>
    destruct (Store.insert_message m d) as [d3|] eqn:Hi2 end; [|discriminate].
  apply insert_message_some in Hi2. subst d3.
  inversion Ha2; subst m2 s6; clear Ha2.
  unfold ret in H. inversion H; subst rep sid' s'; clear H.
  split; [exact Hnone|].
  set (am := mkMessage (uuid_gen E (S (S (st_uuids s)))) cid Ai reply (now_at E (S (S t)))).
  exists um1, am. split; [|repeat split].
  unfold History.get_history, try_catch, Store.getConversation, Store.getMessages,
    bind, read_db, ret. simpl.
  rewrite find_conversation_set.
  replace (Store.find_conversation (mkDB (conversations (st_db s5)) (messages (st_db s5) ++ [am])) cid)
    with (Store.find_conversation (st_db s5) cid) by (destruct (st_db s5); reflexivity).
  rewrite Hf1. simpl.
  unfold Store.select_messages. rewrite messages_of_set, messages_of_app_same by reflexivity.
  replace (Store.messages_of (mkDB (conversations (st_db s5)) (messages (st_db s5))) cid)
    with (Store.messages_of (st_db s5) cid) by (destruct (st_db s5); reflexivity).
  rewrite Hm5. simpl.
  assert (Hle : now_at E (S t) <= now_at E (S (S t))) by (apply now_at_mono; [exact Hmono | lia]).
  apply Z.leb_le in Hle. rewrite Hle. reflexivity.
Qed.

(** *** [getRedisClient] *)

(** What a single call does to the module variable and the attempts. *)
Lemma getRedisClient_step W s r s' :
  Redis.getRedisClient W s = (r, s') ->
  Redis.redisClient s' = r /\
  (Redis.redisClient s <> None -> s' = s) /\
  (Redis.redisClient s = None ->
     s' = s \/
     exists cfg, Redis.attempts s' = (Redis.attempts s ++ [cfg])%list /\
       (r = None \/ r = Some (Redis.mkClient cfg (List.length (Redis.attempts s))))).
Proof.
  intros H. unfold Redis.getRedisClient in H.
  destruct (Redis.redisClient s) as [c|] eqn:Hc.
  - inversion H; subst. split; [exact Hc|]. split; [reflexivity | intros; discriminate].
  - cbv zeta in H.
    repeat (match type of H with
            | context [if ?b then _ else _] => destruct b eqn:?
            | context [match ?o with Some _ => _ | None => _ end] => destruct o eqn:?
            end; simpl in H);
    inversion H; subst; clear H; simpl;
    (split; [try assumption; reflexivity | split; [intros; contradiction | intros _]]);
    first [ left; reflexivity
          | right; eexists; split; [reflexivity | first [left; reflexivity | right; reflexivity]] ].
Qed.

(** The stored client, when there is one, was made by the last recorded
    connection attempt. *)
Definition client_inv (s : Redis.RState) : Prop :=
  match Redis.redisClient s with
  | Some c => S (Redis.client_attempt c) = List.length (Redis.attempts s) /\
              nth_error (Redis.attempts s) (Redis.client_attempt c) = Some (Redis.client_config c)
  | None => True
  end.

Lemma getRedisClient_n_memo n W s rs s' c :
  Redis.redisClient s = Some c ->
  Redis.getRedisClient_n n W s = (rs, s') -> s' = s.
Proof.
  revert s rs. induction n as [|n IH]; intros s rs Hc H; simpl in H.
  - inversion H; reflexivity.
  - unfold Redis.getRedisClient in H at 1. rewrite Hc in H.
    destruct (Redis.getRedisClient_n n W s) as [rs1 s1] eqn:Hn.
    inversion H; subst. exact (IH _ _ Hc Hn).
Qed.

(** Over any number of successive calls to [getRedisClient()], every call
    that answers a client answers the one the module variable holds at
    the end, and that client was made by the last connection attempt:
    once a connection succeeds, no further connection is attempted. *)
Theorem getRedisClient_n_one_client n W s rs s' :
  client_inv s ->
  Redis.getRedisClient_n n W s = (rs, s') ->
  client_inv s' /\ (forall c, In (Some c) rs -> Redis.redisClient s' = Some c).
Proof.
  revert s rs. induction n as [|n IH]; intros s rs Hi H; simpl in H.
  - inversion H; subst. split; [exact Hi | intros c []].
  - destruct (Redis.getRedisClient W s) as [r s1] eqn:H1.
    destruct (Redis.getRedisClient_n n W s1) as [rs1 s2] eqn:Hn.
    inversion H; subst rs s'; clear H.
    apply getRedisClient_step in H1 as (Hr & Hsome & Hnone).
    assert (Hi1 : client_inv s1).
    { destruct (Redis.redisClient s) as [c0|] eqn:Hc.
      - rewrite Hsome by discriminate. exact Hi.
      - destruct (Hnone eq_refl) as [-> | (cfg & Ha & [-> | ->])].
        + exact Hi.
        + unfold client_inv. rewrite Hr. exact I.
        + unfold client_inv. rewrite Hr. simpl. rewrite Ha, length_app. simpl.
          split; [lia|]. rewrite nth_error_app2 by lia. rewrite Nat.sub_diag. reflexivity. }
    destruct (IH s1 rs1 Hi1 Hn) as [Hi2 Hin2].
    split; [exact Hi2|].
    intros c [Hc | Hc].
    + rewrite Hc in Hr. rewrite (getRedisClient_n_memo _ _ _ _ _ _ Hr Hn). exact Hr.
    + exact (Hin2 c Hc).
Qed.

Lemma parseInt_empty : Redis.parseInt "" = None.
Proof. reflexivity. Qed.

(** With no usable [REDIS_URL] and a non-empty [REDIS_HOST], a fresh call
    tries a socket connection to [REDIS_HOST] on the port [parseInt]
    reads from [REDIS_PORT] when that port is a non-zero number; when
    [REDIS_PORT] is unset, not a number or 0, it answers [null] without
    any attempt and leaves the module variable unset. *)
Theorem getRedisClient_host_port W s r s' h :
  Redis.redisClient s = None ->
  Redis.opt_truthy (Redis.env_get W "REDIS_URL") = false ->
  Redis.env_get W "REDIS_HOST" = Some h -> JS.truthy h = true ->
  Redis.getRedisClient W s = (r, s') ->
  (forall p n, Redis.env_get W "REDIS_PORT" = Some p -> Redis.parseInt p = Some n -> n <> 0 ->
     exists u, Redis.attempts s' =
               (Redis.attempts s ++ [Redis.BySocket u (Redis.env_get W "REDIS_PASSWORD") h n])%list) /\
  ((Redis.env_get W "REDIS_PORT" = None \/
    exists p, Redis.env_get W "REDIS_PORT" = Some p /\
              (Redis.parseInt p = None \/ Redis.parseInt p = Some 0)) ->
   r = None /\ s' = s).
Proof.
  intros Hc Hurl Hh Hht H.
  unfold Redis.getRedisClient in H. rewrite Hc in H. cbv zeta in H.
  rewrite Hh, Hht in H.
  assert (Hcfg : match Redis.env_get W "REDIS_URL" with
                 | Some url => if JS.truthy url then Some (Redis.ByUrl url) else None
                 | None => None end = None).
  { unfold Redis.opt_truthy in Hurl. destruct (Redis.env_get W "REDIS_URL") as [u|];
      [rewrite Hurl|]; reflexivity. }
  rewrite Hcfg, Hurl in H. simpl in H.
  split.
  - intros p n Hp Hn Hn0. rewrite Hp in H.
    assert (Hpt : JS.truthy p = true)
      by (destruct p; [rewrite parseInt_empty in Hn; discriminate | reflexivity]).
    rewrite Hpt, Hn in H. unfold Redis.num_truthy in H.
    apply Z.eqb_neq in Hn0. rewrite Hn0 in H. simpl in H.
    rewrite Hht in H. simpl in H.
    eexists. destruct (Redis.w_connect _ _ _); cbv zeta iota in H; injection H as _ <-; reflexivity.
  - intros [Hp | (p & Hp & [Hn | Hn])]; rewrite Hp in H;
      [| destruct (JS.truthy p) ..]; rewrite ?Hn, ?Hht in H; simpl in H;
      rewrite ?Hht in H; simpl in H; inversion H; split; reflexivity.
Qed.

(** *** [ChatWidget] *)

Lemma endsWith_app s p : Widget.endsWith (s ++ p) p = true.
Proof.
  induction s as [|c s IH]; cbn [Widget.endsWith append].
  - destruct p as [|c p]; [reflexivity|]. cbn [Widget.endsWith].
    rewrite String.eqb_refl. reflexivity.
  - rewrite IH, orb_true_r. reflexivity.
Qed.

Lemma endsWith_split s p : Widget.endsWith s p = true -> exists x, s = (x ++ p)%string.
Proof.
  induction s as [|c s IH]; cbn [Widget.endsWith]; intros H.
  - destruct (String.eqb "" p) eqn:He; [|simpl in H; discriminate].
    apply String.eqb_eq in He. subst p. exists "". reflexivity.
  - destruct (String.eqb (String c s) p) eqn:He.
    + apply String.eqb_eq in He. subst p. exists "". reflexivity.
    + simpl in H. destruct (IH H) as [x ->]. exists (String c x). reflexivity.
Qed.

Lemma string_app_assoc a b c : ((a ++ b) ++ c)%string = (a ++ b ++ c)%string.
Proof. induction a as [|x a IH]; simpl; [reflexivity | rewrite IH; reflexivity]. Qed.

Lemma baseUrl_ends v : Widget.endsWith (Widget.baseUrl v) "/api" = true.
Proof.
  unfold Widget.baseUrl.
  set (u := match v with Some u => if JS.truthy u then u else "/api" | None => "/api" end).
  destruct (Widget.endsWith u "/api") eqn:H1; [exact H1|].
  destruct (Widget.endsWith u "/") eqn:H2.
  - destruct (endsWith_split _ _ H2) as [x ->].
    rewrite string_app_assoc. apply endsWith_app.
  - apply endsWith_app.
Qed.

(** The base URL the widget posts to and reads history from always ends
    in ["/api"], whatever [VITE_API_URL] is (unset, empty, with or without
    a trailing slash), and feeding it back as [VITE_API_URL] gives the
    same URL. *)
Theorem baseUrl_api_idem v :
  Widget.endsWith (Widget.baseUrl v) "/api" = true /\
  Widget.baseUrl (Some (Widget.baseUrl v)) = Widget.baseUrl v.
Proof.
  split; [apply baseUrl_ends|].
  pose proof (baseUrl_ends v) as He.
  destruct (endsWith_split _ _ He) as [x Hx].
  unfold Widget.baseUrl at 1.
  assert (Ht : JS.truthy (Widget.baseUrl v) = true)
    by (rewrite Hx; destruct x; reflexivity).
  rewrite Ht, He. reflexivity.
Qed.

(** A message the widget sends passes the backend's [messageSchema]:
    when [sendMessage()] decides to post (not loading), the body carries
    the trimmed input, which is 1 to 5000 characters long, so the backend
    parses it as is, provided the stored [sessionId] is empty, absent or
    a UUID; an empty stored [sessionId] is left out of the body. *)
Theorem widget_body_accepted input sid b E s :
  Widget.sendMessage_step input false sid = Widget.Send b ->
  (forall x, sid = Some x -> x = "" \/ Chat.is_uuid x = true) ->
  Chat.messageSchema_parse b E s = (Ok (JS.trim input, Chat.body_sessionId b), s) /\
  (sid = Some "" -> Chat.body_sessionId b = None).
Proof.
  intros H Hsid. unfold Widget.sendMessage_step in H.
  destruct (JS.truthy (JS.trim input)) eqn:Ht; [|discriminate].
  simpl in H.
  destruct (5000 <? String.length (JS.trim input))%nat eqn:Hl; [discriminate|].
  inversion H; subst b; clear H.
  apply Nat.ltb_ge in Hl.
  assert (H1 : (1 <=? String.length (JS.trim input))%nat = true)
    by (destruct (JS.trim input); [discriminate | reflexivity]).
  apply Nat.leb_le in Hl.
  unfold Chat.messageSchema_parse. cbn [Chat.body_message Chat.body_sessionId]. rewrite H1, Hl. simpl.
  split; [| intros ->; reflexivity].
  destruct sid as [x|]; [|reflexivity].
  destruct (JS.truthy x) eqn:Hx; [|reflexivity].
  destruct (Hsid x eq_refl) as [-> | Hu]; [discriminate|].
  rewrite Hu. reflexivity.
Qed.

(** *** A turn on a stored conversation, then [GET /history] *)

(** The effect of a successful turn on a stored conversation, with the
    times of the two new messages. *)
Lemma post_existing_effect (message sid : string) E s reply sid' s' :
  Chat.post_message (Chat.mkBody (Some message) (Some sid)) E s
    = (Ok (Chat.R200 reply sid'), s') ->
  Store.find_conversation (st_db s) sid <> None ->
  sid' = sid /\
  exists u a c,
    Store.messages_of (st_db s') sid = (Store.messages_of (st_db s) sid ++ [u; a])%list /\
    msg_sender u = User /\ msg_text u = message /\
    msg_sender a = Ai /\ msg_text a = reply /\
    Store.find_conversation (st_db s) sid = Some c /\
    msg_timestamp u = now_at E (st_ticks s) /\
    msg_timestamp a = now_at E (S (st_ticks s)) /\
    Store.find_conversation (st_db s') sid
      = Some (mkConversation sid (created_at c) (msg_timestamp a)).
Proof.
  intros H Hex.
  unfold Chat.post_message in H.
  apply try_catch_ok in H as [H | (e & s1 & _ & H)];
    [| destruct e; simpl in H; discriminate].
  apply bind_ok in H as (parsed & s1 & Hp & H).
  unfold Chat.messageSchema_parse in Hp. cbn [Chat.body_message Chat.body_sessionId] in Hp.
  destruct (negb _); [discriminate|].
  destruct (Chat.is_uuid sid); [|discriminate].
  inversion Hp; subst parsed s1; clear Hp. cbv beta iota in H.
  (* resolve_conversation *)
  apply bind_ok in H as (cid & s2 & Hr & H).
  unfold Chat.resolve_conversation, Store.getConversation, bind, read_db, ret in Hr.
  destruct (Store.find_conversation (st_db s) sid) as [c|] eqn:Hf; [|contradiction].
  inversion Hr; subst cid s2; clear Hr.
  (* first addMessage *)
  apply bind_ok in H as (m1 & s3 & Ha1 & H).
  rewrite addMessage_eval in Ha1. cbv zeta in Ha1. rewrite Hf in Ha1.
  destruct (Store.insert_message _ (st_db s)) as [d1|] eqn:Hi1; [|discriminate].
  apply insert_message_some in Hi1.
  inversion Ha1; subst m1 s3; clear Ha1.
  (* getMessages *)
  apply bind_ok in H as (hist & s4 & Hg & H).
  unfold Store.getMessages, bind, read_db, ret in Hg. inversion Hg; subst hist s4; clear Hg.
  (* generateReply *)
  apply bind_ok in H as (rep & s5 & Hgen & H).
  pose proof (frame_generateReply message
                (Store.select_messages (Store.set_updated_at (now_at E (st_ticks s)) sid d1) sid)
                E
                (mkState (Store.set_updated_at (now_at E (st_ticks s)) sid d1)
                   (st_redis s) (S (st_ticks s)) (S (st_uuids s))
                   ((st_commits s ++ [d1]) ++ [Store.set_updated_at (now_at E (st_ticks s)) sid d1])
                   (st_calls s))) as Hfr.
  rewrite Hgen in Hfr. simpl in Hfr. destruct Hfr as (Hdb5 & Ht5 & Hu5 & _).
  (* second addMessage *)
  apply bind_ok in H as (m2 & s6 & Ha2 & H).
  rewrite addMessage_eval in Ha2. cbv zeta in Ha2.
  rewrite Hdb5, find_conversation_set in Ha2.
  assert (Hf1 : Store.find_conversation d1 sid = Some c).
  { subst d1. rewrite <- Hf. destruct (st_db s). reflexivity. }
  rewrite Hf1 in Ha2. simpl in Ha2.
  destruct (Store.insert_message _ (Store.set_updated_at _ sid d1)) as [d3|] eqn:Hi2;
    [|discriminate].
  apply insert_message_some in Hi2.
  inversion Ha2; subst m2 s6; clear Ha2.
  unfold ret in H. inversion H; subst rep sid' s'; clear H.
  split; [reflexivity|].
  destruct (find_conversation_in _ _ _ Hf) as [_ Hcid].
  exists (mkMessage (uuid_gen E (st_uuids s)) sid User message (now_at E (st_ticks s))),
         (mkMessage (uuid_gen E (st_uuids s5)) sid Ai reply (now_at E (st_ticks s5))), c.
  cbn [msg_sender msg_text msg_timestamp st_db].
  split; [|split; [reflexivity|split; [reflexivity|split; [reflexivity|split; [reflexivity|]]]]].
  - rewrite messages_of_set, Hi2. unfold Store.messages_of. simpl.
    rewrite Hi1. simpl.
    rewrite !filter_app. simpl. rewrite String.eqb_refl. simpl.
    rewrite <- app_assoc. reflexivity.
  - split; [reflexivity|]. split; [reflexivity|]. split; [rewrite Ht5; reflexivity|].
    rewrite find_conversation_set, Hi2.
    rewrite (find_conversation_msgs _ _
               (messages (Store.set_updated_at (now_at E (st_ticks s)) sid d1))).
    change (Store.find_conversation
              (mkDB (conversations (Store.set_updated_at (now_at E (st_ticks s)) sid d1))
                    (messages (Store.set_updated_at (now_at E (st_ticks s)) sid d1))) sid)
      with (Store.find_conversation (Store.set_updated_at (now_at E (st_ticks s)) sid d1) sid).
    rewrite find_conversation_set, Hf1. simpl.
    rewrite Hcid, String.eqb_refl. simpl. rewrite String.eqb_refl. reflexivity.
Qed.

Lemma insert_by_ts_app_last y l x :
  msg_timestamp y <= msg_timestamp x ->
  Store.insert_by_ts y (l ++ [x]) = (Store.insert_by_ts y l ++ [x])%list.
Proof.
  intros Hyx. induction l as [|m l IH]; simpl.
  - apply Z.leb_le in Hyx. rewrite Hyx. reflexivity.
  - destruct (msg_timestamp y <=? msg_timestamp m); [reflexivity|].
    rewrite IH. reflexivity.
Qed.

Lemma sort_by_ts_app_last l x :
  (forall y, In y l -> msg_timestamp y <= msg_timestamp x) ->
  Store.sort_by_ts (l ++ [x]) = (Store.sort_by_ts l ++ [x])%list.
Proof.
  induction l as [|y l IH]; intros H; simpl; [reflexivity|].
  rewrite IH by (intros z Hz; apply H; right; exact Hz).
  apply insert_by_ts_app_last, H. left. reflexivity.
Qed.

(** With a clock that never goes back and the stored times not after the
    clock (as every reachable state has them), after a successful turn on
    a stored conversation [GET /history] answers the history it answered
    before the turn, followed by the user's message and then the agent's
    reply: the new messages sort last, in the order they were written. *)
Theorem turn_then_history message sid E s reply sid' s' :
  Spec.clock_monotone E -> time_inv E s ->
  Store.find_conversation (st_db s) sid <> None ->
  Chat.post_message (Chat.mkBody (Some message) (Some sid)) E s
    = (Ok (Chat.R200 reply sid'), s') ->
  exists u a,
    History.get_history sid E s'
      = (Ok (History.H200 (Store.select_messages (st_db s) sid ++ [u; a])), s') /\
    msg_sender u = User /\ msg_text u = message /\
    msg_sender a = Ai /\ msg_text a = reply.
Proof.
  intros Hmono (_ & _ & Hti) Hex H.
  destruct (post_existing_effect _ _ _ _ _ _ _ H Hex)
    as (_ & u & a & c & Hms & Hu1 & Hu2 & Ha1 & Ha2 & _ & Htu & Hta & Hf').
  exists u, a. split; [|repeat split; assumption].
  unfold History.get_history, try_catch, Store.getConversation, Store.getMessages,
    bind, read_db, ret.
  rewrite Hf'. unfold Store.select_messages. rewrite Hms.
  assert (Hua : msg_timestamp u <= msg_timestamp a)
    by (rewrite Htu, Hta; apply now_at_mono; [exact Hmono | lia]).
  assert (Hold : forall y, In y (Store.messages_of (st_db s) sid) ->
                           msg_timestamp y <= msg_timestamp u).
  { intros y Hy. rewrite Htu. apply Hti.
    unfold Store.messages_of in Hy. apply filter_In in Hy. apply Hy. }
  replace (Store.messages_of (st_db s) sid ++ [u; a])%list
    with ((Store.messages_of (st_db s) sid ++ [u]) ++ [a])%list
    by (rewrite <- app_assoc; reflexivity).
  rewrite sort_by_ts_app_last.
  - rewrite sort_by_ts_app_last by exact Hold.
    rewrite <- app_assoc. reflexivity.
  - intros y Hy. apply in_app_or in Hy as [Hy | [<- | []]]; [|exact Hua].
    eapply Z.le_trans; [apply Hold, Hy | exact Hua].
Qed.

(** *** Instances of the further properties *)

(** A configuration with no OpenAI key: every reply fails with the
    configuration error. *)
Definition env_nokey : Env :=
  mkEnv [("LLM_PROVIDER", "openai")] Demo.ticking Demo.demo_uuid (fun s => s)
        (fun _ _ => BOk (Some "Sure!")) (fun _ => BOk "Sure!").

(** A Groq configuration given with padded, mixed-case provider name. *)
Definition env_groq_padded : Env :=
  mkEnv [("LLM_PROVIDER", "  GrOq "); ("GROQ_API_KEY", "gsk_demo")] Demo.ticking Demo.demo_uuid
        (fun s => s) (fun _ _ => BOk (Some "Sure!")) (fun _ => BOk "Sure!").

(** A Gemini configuration whose key carries surrounding blanks. *)
Definition env_gemini_padded : Env :=
  mkEnv [("LLM_PROVIDER", "gemini"); ("GEMINI_API_KEY", " AIza-demo ")] Demo.ticking
        Demo.demo_uuid (fun s => s) (fun _ _ => BOk (Some "Sure!")) (fun _ => BOk "Sure!").

(** A Redis reachable by URL whose first connection fails. *)
Definition world_url : Redis.World :=
  Redis.mkWorld [("REDIS_URL", "redis://cache:6379")] (fun k _ => Nat.eqb k 1).

(** A Redis given by host and port. *)
Definition world_host : Redis.World :=
  Redis.mkWorld [("REDIS_HOST", "localhost"); ("REDIS_PORT", " 6379")] (fun _ _ => true).

Lemma addMessage_isolated_witness :
  let E := Demo.env Demo.ticking "Sure!" in
  let res := Store.addMessage (Demo.demo_uuid 0) User "Hi" E Demo.busy_state in
  Demo.demo_uuid 1 <> Demo.demo_uuid 0 /\
  length (messages (st_db (snd res))) = 4%nat /\
  Store.find_conversation (st_db (snd res)) (Demo.demo_uuid 1)
    = Some (mkConversation (Demo.demo_uuid 1) 1700000000 1700000003) /\
  Store.messages_of (st_db (snd res)) (Demo.demo_uuid 1)
    = [mkMessage (Demo.demo_uuid 4) (Demo.demo_uuid 1) User "Where is my order?" 1700000003].
Proof.
  intros E res.
  assert (Hne : Demo.demo_uuid 1 <> Demo.demo_uuid 0) by (vm_compute; discriminate).
  split; [exact Hne|]. split; [vm_compute; reflexivity|].
  destruct (addMessage_isolated (Demo.demo_uuid 0) User "Hi" E Demo.busy_state
              (fst res) (snd res) (Demo.demo_uuid 1) (surjective_pairing _) Hne) as [Hf Hm].
  rewrite Hf, Hm. split; vm_compute; reflexivity.
Defined.

Lemma createConversation_new_empty_witness :
  let E := Demo.env Demo.ticking "Sure!" in
  let s' := snd (Store.createConversation E Demo.conv_state) in
  fk_ok (st_db Demo.conv_state) /\
  Store.createConversation E Demo.conv_state = (Ok (Demo.demo_uuid 5), s') /\
  Store.select_messages (st_db s') (Demo.demo_uuid 5) = [].
Proof.
  intros E s'.
  assert (Hfk : fk_ok (st_db Demo.conv_state)) by (intros m []).
  assert (Hrun : Store.createConversation E Demo.conv_state = (Ok (Demo.demo_uuid 5), s'))
    by (vm_compute; reflexivity).
  split; [exact Hfk|]. split; [exact Hrun|].
  exact (proj2 (proj2 (proj2 (createConversation_new_empty E Demo.conv_state
                                 (Demo.demo_uuid 5) s' Hfk Hrun)))).
Defined.

Lemma getCacheKey_normalizes_witness :
  let E := Demo.env Demo.ticking "Sure!" in
  all_ws "  " /\ all_ws " " /\
  Cache.getCacheKey E ("  " ++ "Return Policy?" ++ " ") = Cache.getCacheKey E "Return Policy?".
Proof.
  intros E.
  assert (H1 : all_ws "  ") by reflexivity.
  assert (H2 : all_ws " ") by reflexivity.
  split; [exact H1|]. split; [exact H2|].
  exact (proj1 (getCacheKey_normalizes E "  " "Return Policy?" " " H1 H2)).
Defined.

Lemma generateReply_history_ignores_cache_witness :
  let E := Demo.env Demo.ticking "Sure!" in
  let h := [mkMessage (Demo.demo_uuid 1) (Demo.demo_uuid 0) User "Hi" 1700000000] in
  h <> [] /\
  st_redis (snd (LLM.generateReply "Hi" h E Demo.state0)) = st_redis Demo.state0.
Proof.
  intros E h.
  assert (Hh : h <> []) by discriminate.
  split; [exact Hh|].
  exact (proj2 (generateReply_history_ignores_cache "Hi" h E Demo.state0 None Hh)).
Defined.

Lemma generateReply_cache_hit_witness :
  let E := Demo.env Demo.ticking "Sure!" in
  let kv := [(Cache.getCacheKey E "hi", "Cached!")] in
  let s := set_redis Demo.state0 (Some kv) in
  st_redis s = Some kv /\
  Cache.redis_lookup kv (Cache.getCacheKey E " HI") = Some "Cached!" /\
  LLM.generateReply " HI" [] E s = (Ok "Cached!", s).
Proof.
  intros E kv s.
  assert (Hr : st_redis s = Some kv) by reflexivity.
  assert (Hl : Cache.redis_lookup kv (Cache.getCacheKey E " HI") = Some "Cached!")
    by (vm_compute; reflexivity).
  split; [exact Hr|]. split; [exact Hl|].
  exact (generateReply_cache_hit " HI" E s kv "Cached!" Hr Hl ltac:(discriminate)).
Defined.

Lemma getProvider_case_padding_witness :
  all_ws "  " /\ all_ws " " /\
  process_env "LLM_PROVIDER" env_groq_padded Demo.state0
    = (Ok (Some ("  " ++ "GrOq" ++ " ")), Demo.state0) /\
  LLM.getProvider env_groq_padded Demo.state0 = (Ok LLM.Groq, Demo.state0).
Proof.
  assert (H1 : all_ws "  ") by reflexivity.
  assert (H2 : all_ws " ") by reflexivity.
  assert (Hv : process_env "LLM_PROVIDER" env_groq_padded Demo.state0
               = (Ok (Some ("  " ++ "GrOq" ++ " ")), Demo.state0)) by reflexivity.
  split; [exact H1|]. split; [exact H2|]. split; [exact Hv|].
  exact (proj1 (getProvider_case_padding env_groq_padded Demo.state0 "  " "GrOq" " " H1 H2 Hv)
           eq_refl).
Defined.

Lemma gemini_key_not_trimmed_witness :
  option_map snd (find (fun kv => String.eqb (fst kv) "GEMINI_API_KEY") (env_vars env_gemini_padded))
    = Some " AIza-demo " /\
  st_calls (snd (LLM.generateWithGemini "Hi" [] env_gemini_padded Demo.state0))
  = [CallGemini (mkGeminiRequest "gemini-pro" LLM.maxTokens 7 (LLM.gemini_prompt "Hi" []))].
Proof.
  assert (Hk : option_map snd (find (fun kv => String.eqb (fst kv) "GEMINI_API_KEY")
                                    (env_vars env_gemini_padded)) = Some " AIza-demo ")
    by reflexivity.
  split; [exact Hk|].
  exact (gemini_key_not_trimmed "Hi" [] env_gemini_padded Demo.state0 " AIza-demo " Hk
           ltac:(discriminate) ltac:(discriminate)).
Defined.

Lemma invalid_body_no_effect_witness :
  let b := Chat.mkBody (Some "Hi") (Some "not-a-uuid") in
  Chat.is_uuid "not-a-uuid" = false /\
  Chat.post_message b (Demo.env Demo.ticking "Sure!") Demo.conv_state
  = (Ok Chat.R400, Demo.conv_state).
Proof.
  intros b.
  assert (Hu : Chat.is_uuid "not-a-uuid" = false) by reflexivity.
  split; [exact Hu|].
  apply (invalid_body_no_effect b (Demo.env Demo.ticking "Sure!") Demo.conv_state).
  right; right. exists "not-a-uuid". split; [reflexivity | exact Hu].
Defined.

Lemma failed_turn_keeps_user_message_witness :
  let b := Chat.mkBody (Some "Hi") (Some (Demo.demo_uuid 0)) in
  let s' := snd (Chat.post_message b env_nokey Demo.conv_state) in
  Chat.post_message b env_nokey Demo.conv_state
  = (Ok (Chat.R500 "OpenAI API key not configured. Please set a valid OPENAI_API_KEY in backend/.env file. Get your key at https://platform.openai.com/api-keys"), s') /\
  Store.messages_of (st_db s') (Demo.demo_uuid 0)
  = [mkMessage (Demo.demo_uuid 5) (Demo.demo_uuid 0) User "Hi" 1700000005].
Proof.
  intros b s'.
  assert (Hex : Store.find_conversation (st_db Demo.conv_state) (Demo.demo_uuid 0) <> None)
    by (vm_compute; discriminate).
  assert (Hfr : ~ In (uuid_gen env_nokey (st_uuids Demo.conv_state))
                     (map msg_id (messages (st_db Demo.conv_state)))) by (intros []).
  assert (Hrun : Chat.post_message b env_nokey Demo.conv_state
  = (Ok (Chat.R500 "OpenAI API key not configured. Please set a valid OPENAI_API_KEY in backend/.env file. Get your key at https://platform.openai.com/api-keys"), s'))
    by (vm_compute; reflexivity).
  split; [exact Hrun|].
  exact (failed_turn_keeps_user_message "Hi" (Demo.demo_uuid 0) env_nokey Demo.conv_state _ s'
           Hex Hfr Hrun).
Defined.

Lemma new_session_history_witness :
  let E := Demo.env Demo.ticking "Sure!" in
  let b := Chat.mkBody (Some "Hi") None in
  let s' := snd (Chat.post_message b E Demo.state0) in
  Chat.post_message b E Demo.state0 = (Ok (Chat.R200 "Sure!" (Demo.demo_uuid 0)), s') /\
  Store.find_conversation (st_db Demo.state0) (Demo.demo_uuid 0) = None.
Proof.
  intros E b s'.
  assert (Hfk : fk_ok (st_db Demo.state0)) by (intros m []).
  assert (Hrun : Chat.post_message b E Demo.state0
                 = (Ok (Chat.R200 "Sure!" (Demo.demo_uuid 0)), s')) by (vm_compute; reflexivity).
  split; [exact Hrun|].
  exact (proj1 (new_session_history "Hi" None E Demo.state0 "Sure!" (Demo.demo_uuid 0) s'
                  Hfk (ticking_monotone "Sure!") (or_introl eq_refl) Hrun)).
Defined.

Lemma getRedisClient_n_one_client_witness :
  let res := Redis.getRedisClient_n 3 world_url (Redis.mkRState None []) in
  client_inv (Redis.mkRState None []) /\
  client_inv (snd res).
Proof.
  intros res.
  assert (Hi : client_inv (Redis.mkRState None [])) by exact I.
  split; [exact Hi|].
  exact (proj1 (getRedisClient_n_one_client 3 world_url (Redis.mkRState None []) (fst res) (snd res)
                  Hi (surjective_pairing _))).
Defined.

Lemma getRedisClient_host_port_witness :
  let res := Redis.getRedisClient world_host (Redis.mkRState None []) in
  Redis.env_get world_host "REDIS_PORT" = Some " 6379" /\
  Redis.parseInt " 6379" = Some 6379 /\
  exists u, Redis.attempts (snd res)
            = [Redis.BySocket u (Redis.env_get world_host "REDIS_PASSWORD") "localhost" 6379].
Proof.
  intros res.
  assert (Hp : Redis.env_get world_host "REDIS_PORT" = Some " 6379") by reflexivity.
  assert (Hn : Redis.parseInt " 6379" = Some 6379) by reflexivity.
  split; [exact Hp|]. split; [exact Hn|].
  exact (proj1 (getRedisClient_host_port world_host (Redis.mkRState None []) (fst res) (snd res)
                  "localhost" eq_refl eq_refl eq_refl eq_refl (surjective_pairing _))
           " 6379" 6379 Hp Hn ltac:(discriminate)).
Defined.

Lemma widget_body_accepted_witness :
  Widget.sendMessage_step "  Hi  " false (Some "") = Widget.Send (Chat.mkBody (Some "Hi") None) /\
  Chat.messageSchema_parse (Chat.mkBody (Some "Hi") None) (Demo.env Demo.ticking "Sure!")
    Demo.state0 = (Ok (JS.trim "  Hi  ", None), Demo.state0).
Proof.
  assert (Hs : Widget.sendMessage_step "  Hi  " false (Some "")
               = Widget.Send (Chat.mkBody (Some "Hi") None)) by (vm_compute; reflexivity).
  split; [exact Hs|].
  exact (proj1 (widget_body_accepted "  Hi  " (Some "") _ (Demo.env Demo.ticking "Sure!")
                  Demo.state0 Hs ltac:(intros x Hx; left; congruence))).
Defined.

Lemma turn_then_history_witness :
  let E := Demo.env Demo.ticking "Sure!" in
  let b := Chat.mkBody (Some "Hi") (Some (Demo.demo_uuid 0)) in
  let s' := snd (Chat.post_message b E Demo.busy_state) in
  time_inv E Demo.busy_state /\
  Chat.post_message b E Demo.busy_state = (Ok (Chat.R200 "Sure!" (Demo.demo_uuid 0)), s') /\
  Store.select_messages (st_db Demo.busy_state) (Demo.demo_uuid 0)
    = [mkMessage (Demo.demo_uuid 2) (Demo.demo_uuid 0) User "Hello" 1700000001;
       mkMessage (Demo.demo_uuid 3) (Demo.demo_uuid 0) Ai "Hi there!" 1700000002] /\
  exists u a,
    History.get_history (Demo.demo_uuid 0) E s'
      = (Ok (History.H200 ([mkMessage (Demo.demo_uuid 2) (Demo.demo_uuid 0) User "Hello" 1700000001;
                            mkMessage (Demo.demo_uuid 3) (Demo.demo_uuid 0) Ai "Hi there!" 1700000002]
                           ++ [u; a])), s') /\
    msg_sender u = User /\ msg_text u = "Hi" /\ msg_sender a = Ai /\ msg_text a = "Sure!".
Proof.
  intros E b s'.
  assert (Ht : time_inv E Demo.busy_state).
  { split; [|split].
    - intros c Hc. destruct Hc as [<- | [<- | []]];
        (split; [simpl; lia|]);
        intros m Hm Hcid; destruct Hm as [<- | [<- | [<- | []]]];
        first [simpl; lia | vm_compute in Hcid; discriminate].
    - intros c Hc. destruct Hc as [<- | [<- | []]]; vm_compute; discriminate.
    - intros m Hm. destruct Hm as [<- | [<- | [<- | []]]]; vm_compute; discriminate. }
  assert (Hex : Store.find_conversation (st_db Demo.busy_state) (Demo.demo_uuid 0) <> None)
    by (vm_compute; discriminate).
  assert (Hrun : Chat.post_message b E Demo.busy_state
                 = (Ok (Chat.R200 "Sure!" (Demo.demo_uuid 0)), s')) by (vm_compute; reflexivity).
  assert (Hsel : Store.select_messages (st_db Demo.busy_state) (Demo.demo_uuid 0)
    = [mkMessage (Demo.demo_uuid 2) (Demo.demo_uuid 0) User "Hello" 1700000001;
       mkMessage (Demo.demo_uuid 3) (Demo.demo_uuid 0) Ai "Hi there!" 1700000002])
    by (vm_compute; reflexivity).
  split; [exact Ht|]. split; [exact Hrun|]. split; [exact Hsel|].
  destruct (turn_then_history "Hi" (Demo.demo_uuid 0) E Demo.busy_state "Sure!" (Demo.demo_uuid 0)
              s' (ticking_monotone "Sure!") Ht Hex Hrun) as (u & a & Hh & Hu1 & Hu2 & Ha1 & Ha2).
  rewrite Hsel in Hh. exists u, a. repeat split; assumption.
Defined.
